(** * Compiler.ts: the esbuild build-session registry

    A shallow embedding of [src/Compiler.ts] (class [Compiler]) and the
    properties of its registry, of its fan-out operations and of its
    output-path mapper.

    Conventions of the model.
    - A JavaScript string is a [string]; a character stands for one UTF-16
      code unit below 256, so the only line terminators that occur are
      line feed and carriage return.
    - The objects [fileMap], [tsConfigMap] and [groupMap] are plain
      objects: a finite map holds their own properties, and a read also
      sees the properties every plain object inherits from
      [Object.prototype].  The keys that are written are manifest paths
      and member paths as TypeScript reports them, absolute paths: a write
      adds or replaces an own property (no write is to [__proto__]).
    - Calls into esbuild, TypeScript and the host are answered by a [Host]
      record; every such call is recorded in a chronological trace.
    - The operations of a session run one after the other, each to its
      end; calls that overlap are modelled apart, by the steps between
      the [await]s of [startBuilding].  Inside a fan-out the calls are
      made in the order of the list, as the source makes them, and what
      the promises log when they settle is recorded in that order; which
      of several rejected promises settles first, and so rejects
      [Promise.all], is an answer of the host.
    - [boot] and [stop] only acquire and release the esbuild service and
      are left out: the service is the [service_build] of the host. *)

From Stdlib Require Import Ascii String.
From stdpp Require Import base strings list gmap.

Local Open Scope string_scope.
Local Open Scope list_scope.

(** ** JavaScript strings *)

Module JsString.

(** [s.startsWith(pat)]. *)
Fixpoint startsWith (pat s : string) : bool :=
  match pat, s with
  | EmptyString, _ => true
  | String _ _, EmptyString => false
  | String a pat', String b s' => Ascii.eqb a b && startsWith pat' s'
  end.

(** [s.slice(n)]. *)
Fixpoint slice_from (n : nat) (s : string) : string :=
  match n, s with
  | O, _ => s
  | S _, EmptyString => EmptyString
  | S n', String _ s' => slice_from n' s'
  end.

(** [s.replace(pat, rep)] for a string pattern [pat]: only the first
    occurrence, scanning from the left, is replaced.  [rep] is taken
    literally (the source only passes the empty string here, so no [$]
    replacement pattern is involved). *)
Fixpoint replace (pat rep s : string) : string :=
  if startsWith pat s then rep +:+ slice_from (String.length pat) s
  else match s with
       | EmptyString => EmptyString
       | String c s' => String c (replace pat rep s')
       end.

(** [s.replace(/\//g, rep)]: every slash is replaced. *)
Fixpoint replace_slashes (rep s : string) : string :=
  match s with
  | EmptyString => EmptyString
  | String c s' =>
      if Ascii.eqb c "/" then rep +:+ replace_slashes rep s'
      else String c (replace_slashes rep s')
  end.

(** Line terminators, which the regular-expression dot does not match. *)
Definition is_line_terminator (c : ascii) : bool :=
  Ascii.eqb c "010" || Ascii.eqb c "013".

(** The character class of [.] in a pattern without the [s] flag. *)
Definition dot_matches (c : ascii) : bool := negb (is_line_terminator c).

(** Does [/.tsx?$/] match [s] starting at its first character?  One
    character of the dot class, then [ts], an optional [x], then the end
    of the input. *)
Definition matches_dot_tsx_end (s : string) : bool :=
  match s with
  | EmptyString => false
  | String c rest => dot_matches c && (String.eqb rest "tsx" || String.eqb rest "ts")
  end.

(** [s.replace(/.tsx?$/, rep)]: the leftmost match, if any, is replaced;
    the match extends to the end of the input. *)
Fixpoint replace_dot_tsx_end (rep s : string) : string :=
  if matches_dot_tsx_end s then rep
  else match s with
       | EmptyString => EmptyString
       | String c s' => String c (replace_dot_tsx_end rep s')
       end.

(** [parts.join(sep)]. *)
Fixpoint join (sep : string) (parts : list string) : string :=
  match parts with
  | [] => EmptyString
  | [p] => p
  | p :: rest => p +:+ sep +:+ join sep rest
  end.

(** [s.endsWith("/")]. *)
Fixpoint ends_with_slash (s : string) : bool :=
  match s with
  | EmptyString => false
  | String c EmptyString => Ascii.eqb c "/"
  | String _ s' => ends_with_slash s'
  end.

(** [s.split("/")]. *)
Fixpoint split_slash (s : string) : list string :=
  match s with
  | EmptyString => [EmptyString]
  | String c s' =>
      if Ascii.eqb c "/" then EmptyString :: split_slash s'
      else match split_slash s' with
           | [] => [String c EmptyString]
           | seg :: rest => String c seg :: rest
           end
  end.

End JsString.

(** ** Node's [path] module, POSIX flavour *)

Module PosixPath.

(** One step of [normalizeString]: [stack] holds the segments kept so
    far, innermost first.  Empty segments and [.] are dropped; [..]
    removes the previous segment unless there is none or it is itself
    [..], in which case [..] is kept when the path is relative. *)
Definition push_segment (allowAboveRoot : bool) (stack : list string) (seg : string)
  : list string :=
  if String.eqb seg "" || String.eqb seg "." then stack
  else if String.eqb seg ".." then
    match stack with
    | [] => if allowAboveRoot then [".."] else []
    | top :: below =>
        if String.eqb top ".." then (if allowAboveRoot then ".." :: stack else stack)
        else below
    end
  else seg :: stack.

Definition normalizeString (path : string) (allowAboveRoot : bool) : string :=
  JsString.join "/"
    (rev (fold_left (push_segment allowAboveRoot) (JsString.split_slash path) [])).

(** [path.posix.normalize]. *)
Definition normalize (path : string) : string :=
  if String.eqb path "" then "."
  else
    let isAbsolute := JsString.startsWith "/" path in
    let trailingSeparator := JsString.ends_with_slash path in
    let body := normalizeString path (negb isAbsolute) in
    if String.eqb body "" then
      (if isAbsolute then "/" else if trailingSeparator then "./" else ".")
    else
      (if isAbsolute then "/" else "") +:+ body +:+ (if trailingSeparator then "/" else "").

(** [path.posix.join(...args)]: the non-empty arguments are joined with a
    slash and the result is normalized. *)
Definition join (args : list string) : string :=
  match List.filter (fun a => negb (String.eqb a "")) args with
  | [] => "."
  | parts => normalize (JsString.join "/" parts)
  end.

End PosixPath.

(** ** The collaborators: esbuild, TypeScript, the host *)

(** A value thrown by the program or by a collaborator. *)
Inductive exn : Type :=
| JsError (message : string)      (* [new Error(message)], also what esbuild throws *)
| JsTypeError (message : string). (* raised by the engine *)

(** How a call into a collaborator ends: it returns (a value or a promise
    that is fulfilled), it throws before returning, or it returns a
    promise that is rejected. *)
Inductive outcome : Type :=
| Fulfils
| Throws (e : exn)
| Rejects (e : exn).

Definition failure (o : outcome) : option exn :=
  match o with
  | Fulfils => None
  | Throws e | Rejects e => Some e
  end.

(** The options object passed to [service.build]. *)
Record BuildOptions : Type := {
  entryPoints : list string;
  incremental : bool;
  bundle : bool;
  platform : string;
  format : string;
  target : list string;
  outdir : string;
  outbase : string;
  tsconfig : string;
  sourcemap : string;
}.

(** A [BuildIncremental] object.  Objects have identity: [build_id] is the
    rank of the object among those [service.build] has returned; the
    options it was started with are kept alongside. *)
Record BuildIncremental : Type := {
  build_id : nat;
  build_options : BuildOptions;
}.

(** What [ts.parseJsonConfigFileContent] returns, as far as the program
    reads it: the message texts of [errors], and [fileNames]. *)
Record ParsedCommandLine : Type := {
  errors : list string;
  fileNames : list string;
}.

Inductive logval : Type :=
| LStr (s : string)
| LNum (n : nat).

(** Calls that leave the program, in the order they are made. *)
Inductive Event : Type :=
| FindConfigFile (filename : string)
| ServiceBuild (options : BuildOptions)
| Rebuild (build : BuildIncremental)
| Dispose (build : BuildIncremental)
| LogError (error : exn)
| LogDebug (message : string) (fields : list (string * logval)).

(** The answers of the environment during one operation. *)
Record Host : Type := {
  (* [process.platform === "win32"] *)
  win32 : bool;
  (* [path.join] *)
  path_join : list string -> string;
  (* [ts.findConfigFile(filename, ts.sys.fileExists, "tsconfig.json")] *)
  findConfigFile : string -> option string;
  (* [ts.readConfigFile] followed by [ts.parseJsonConfigFileContent] *)
  parseConfigFile : string -> ParsedCommandLine;
  (* [service.build(options)]; a service that was never booted rejects *)
  service_build : BuildOptions -> outcome;
  (* [build.rebuild()] *)
  build_rebuild : BuildIncremental -> outcome;
  (* [build.rebuild.dispose()] *)
  rebuild_dispose : BuildIncremental -> outcome;
  (* the duration measured by [time] *)
  elapsed : nat;
  (* among the promises of a fan-out that are rejected, counted in the
     order of the list and modulo their number, the one that settles
     first *)
  settles_first : nat;
}.

(** ** The state of a [Compiler] *)

Record Compiler : Type := {
  workspaceRoot : string;
  workDir : string;
  builds : list BuildIncremental;
  fileMap : gmap string BuildIncremental;
  tsConfigMap : gmap string BuildIncremental;
  groupMap : gmap string (list string);
  (* number of [BuildIncremental] objects created so far *)
  allocated : nat;
  (* calls made so far, oldest first *)
  trace : list Event;
}.

(** [new Compiler(workspaceRoot, workDir)]. *)
Definition new_Compiler (root dir : string) : Compiler :=
  {| workspaceRoot := root; workDir := dir;
     builds := []; fileMap := ∅; tsConfigMap := ∅; groupMap := ∅;
     allocated := 0; trace := [] |}.

(** The registry proper: the live handles and the three maps. *)
Definition registry (c : Compiler)
  : list BuildIncremental * gmap string BuildIncremental
    * gmap string BuildIncremental * gmap string (list string) :=
  (builds c, fileMap c, tsConfigMap c, groupMap c).

(** ** Computations: state, exceptions, promises *)

Inductive completion (A : Type) : Type :=
| Normal (a : A)
| Abrupt (e : exn).
Arguments Normal {A} a.
Arguments Abrupt {A} e.

Definition M (A : Type) : Type := Compiler -> Compiler * completion A.

(** A promise is what remains to be run once the call that created it has
    returned; awaiting it runs that remainder. *)
Definition Promise (A : Type) : Type := M A.

Definition ret {A} (a : A) : M A := fun c => (c, Normal a).
Definition throw {A} (e : exn) : M A := fun c => (c, Abrupt e).

Definition bind {A B} (m : M A) (k : A -> M B) : M B :=
  fun c => match m c with
           | (c', Normal a) => k a c'
           | (c', Abrupt e) => (c', Abrupt e)
           end.

Notation "'let*' x ':=' m 'in' k" := (bind m (fun x => k))
  (at level 10, x name, m at level 100, k at level 200, only parsing).
Notation "m ;;; k" := (bind m (fun _ => k))
  (at level 100, k at level 200, right associativity, only parsing).

Definition get : M Compiler := fun c => (c, Normal c).
Definition modify (f : Compiler -> Compiler) : M unit := fun c => (f c, Normal tt).

(** [try { body } catch (e) { handler(e) }]. *)
Definition try_catch {A} (body : M A) (handler : exn -> M A) : M A :=
  fun c => match body c with
           | (c', Normal a) => (c', Normal a)
           | (c', Abrupt e) => handler e c'
           end.

Definition await {A} (p : Promise A) : M A := p.

(** [list.map(f)] for an effectful callback: the calls are made in order
    and the first one that throws ends the loop. *)
Fixpoint array_map {A B} (f : A -> M B) (l : list A) : M (list B) :=
  match l with
  | [] => ret []
  | a :: l' => let* b := f a in let* bs := array_map f l' in ret (b :: bs)
  end.

(** Every promise of [ps] settles; the results are kept in the order of
    [ps]. *)
Fixpoint settle {A} (ps : list (Promise A)) (c : Compiler)
  : Compiler * list (completion A) :=
  match ps with
  | [] => (c, [])
  | p :: ps' =>
      let (c', r) := p c in
      let (c'', rs) := settle ps' c' in
      (c'', r :: rs)
  end.

Fixpoint fulfilled {A} (rs : list (completion A)) : list A :=
  match rs with
  | [] => []
  | Normal a :: rs' => a :: fulfilled rs'
  | Abrupt _ :: rs' => fulfilled rs'
  end.

Fixpoint rejected {A} (rs : list (completion A)) : list exn :=
  match rs with
  | [] => []
  | Normal _ :: rs' => rejected rs'
  | Abrupt e :: rs' => e :: rejected rs'
  end.

(** [Promise.all(ps)]: fulfilled with all the values when no promise is
    rejected, and otherwise rejected with the reason of the rejected
    promise that settles first, which is the one of rank [first] among
    the rejected ones. *)
Definition Promise_all {A} (first : nat) (ps : list (Promise A)) : Promise (list A) :=
  fun c =>
    let (c', rs) := settle ps c in
    match rejected rs with
    | [] => (c', Normal (fulfilled rs))
    | e :: es => (c', Abrupt (nth (first mod length (e :: es)) (e :: es) e))
    end.

Definition set_trace (t : list Event) (c : Compiler) : Compiler :=
  {| workspaceRoot := workspaceRoot c; workDir := workDir c;
     builds := builds c; fileMap := fileMap c; tsConfigMap := tsConfigMap c;
     groupMap := groupMap c; allocated := allocated c; trace := t |}.

Definition emit (ev : Event) : M unit :=
  modify (fun c => set_trace (trace c ++ [ev]) c).

(** A call into a collaborator: recorded, then it returns a promise or
    throws. *)
Definition invoke {A} (ev : Event) (o : outcome) (value : M A) : M (Promise A) :=
  emit ev ;;;
  match o with
  | Fulfils => ret value
  | Throws e => throw e
  | Rejects e => ret (throw e)
  end.

(** Calling an [async] function whose body runs to its end once awaited:
    the caller gets a promise that settles like the body. *)
Definition async {A} (body : M A) : M (Promise A) := ret body.

(** ** The class [Compiler] *)

Definition set_builds (bs : list BuildIncremental) (c : Compiler) : Compiler :=
  {| workspaceRoot := workspaceRoot c; workDir := workDir c;
     builds := bs; fileMap := fileMap c; tsConfigMap := tsConfigMap c;
     groupMap := groupMap c; allocated := allocated c; trace := trace c |}.

Definition set_fileMap (m : gmap string BuildIncremental) (c : Compiler) : Compiler :=
  {| workspaceRoot := workspaceRoot c; workDir := workDir c;
     builds := builds c; fileMap := m; tsConfigMap := tsConfigMap c;
     groupMap := groupMap c; allocated := allocated c; trace := trace c |}.

Definition set_tsConfigMap (m : gmap string BuildIncremental) (c : Compiler) : Compiler :=
  {| workspaceRoot := workspaceRoot c; workDir := workDir c;
     builds := builds c; fileMap := fileMap c; tsConfigMap := m;
     groupMap := groupMap c; allocated := allocated c; trace := trace c |}.

Definition set_groupMap (m : gmap string (list string)) (c : Compiler) : Compiler :=
  {| workspaceRoot := workspaceRoot c; workDir := workDir c;
     builds := builds c; fileMap := fileMap c; tsConfigMap := tsConfigMap c;
     groupMap := m; allocated := allocated c; trace := trace c |}.

(** The object [service.build] resolves to: a new one at every call. *)
Definition new_build (options : BuildOptions) : M BuildIncremental :=
  fun c =>
    ({| workspaceRoot := workspaceRoot c; workDir := workDir c;
        builds := builds c; fileMap := fileMap c; tsConfigMap := tsConfigMap c;
        groupMap := groupMap c; allocated := S (allocated c); trace := trace c |},
     Normal {| build_id := allocated c; build_options := options |}).

(** The names of the properties of [Object.prototype], which every plain
    object inherits; the value of each is a function or an object. *)
Definition Object_prototype_names : list string :=
  ["constructor"; "__defineGetter__"; "__defineSetter__"; "hasOwnProperty";
   "__lookupGetter__"; "__lookupSetter__"; "isPrototypeOf"; "propertyIsEnumerable";
   "toString"; "valueOf"; "__proto__"; "toLocaleString"].

Definition inherited (k : string) : bool :=
  existsb (String.eqb k) Object_prototype_names.

(** [if (obj[k])] for a plain object [obj] whose own properties, held by
    [m], have objects as values: the test succeeds on an own property and
    on an inherited one. *)
Definition truthy_at {V} (m : gmap string V) (k : string) : bool :=
  match m !! k with
  | Some _ => true
  | None => inherited k
  end.

(** An object as [Object.fromEntries] builds it: own properties in
    creation order.  Defining a key that exists overwrites its value in
    place.  (Keys are file paths; none is an array index, for which the
    order would be numeric.) *)
Definition JsObject : Type := list (string * string).

Fixpoint define_property (o : JsObject) (k v : string) : JsObject :=
  match o with
  | [] => [(k, v)]
  | (k', v') :: o' =>
      if String.eqb k' k then (k', v) :: o' else (k', v') :: define_property o' k v
  end.

Definition fromEntries (entries : list (string * string)) : JsObject :=
  fold_left (fun o kv => define_property o (fst kv) (snd kv)) entries [].

Section Operations.

Variable h : Host.

(** Modelled from the spec: [log.error] of [./utils], which reports an
    error on the logging channel. *)
Definition log_error (error : exn) : M unit := emit (LogError error).

(** Modelled from the spec: [log.debug] of [./utils], which reports a
    message and its fields on the logging channel. *)
Definition log_debug (message : string) (fields : list (string * logval)) : M unit :=
  emit (LogDebug message fields).

(** Modelled from the spec: [time] of [./utils], which awaits [run] and
    yields the elapsed wall time. *)
Definition time (run : M unit) : M nat := run ;;; ret (elapsed h).

(** [destination]: lines 149-151. *)
Definition destination (c : Compiler) (filename : string) : string :=
  path_join h
    [workDir c;
     JsString.replace_dot_tsx_end ".js" (JsString.replace (workspaceRoot c) "" filename)].

(** [reportESBuildErrors]: lines 141-147.  [run()] is called at once; if
    it throws, the error is logged there and then; if the promise it
    returns is rejected, the error is logged when that settles. *)
Definition reportESBuildErrors {T} (run : M (Promise T)) : M (Promise (option T)) :=
  try_catch
    (let* p := run in
     ret (try_catch (let* v := await p in ret (Some v))
                    (fun error => log_error error ;;; ret None)))
    (fun error => log_error error ;;; ret (ret None)).

(** [getTSConfig]: lines 74-90. *)
Definition getTSConfig (filename : string) : M (string * ParsedCommandLine) :=
  emit (FindConfigFile filename) ;;;
  match findConfigFile h filename with
  | None => throw (JsError ("couldnt find tsconfig.json near " +:+ filename))
  | Some tsConfigFile =>
      if String.eqb tsConfigFile "" then
        throw (JsError ("couldnt find tsconfig.json near " +:+ filename))
      else
        let tsConfig := parseConfigFile h tsConfigFile in
        match errors tsConfig with
        | [] => ret (tsConfigFile, tsConfig)
        | _ :: _ => throw (JsError (JsString.join (String "010" "") (errors tsConfig)))
        end
  end.

Definition buildOptions (c : Compiler) (fileNames : list string) (tsConfigFile : string)
  : BuildOptions :=
  {| entryPoints := fileNames; incremental := true; bundle := false;
     platform := "node"; format := "cjs"; target := ["node14"];
     outdir := workDir c; outbase := workspaceRoot c;
     tsconfig := tsConfigFile; sourcemap := "inline" |}.

(** The entry points: [tsConfig.fileNames], with backslashes on win32. *)
Definition entryNames (tsConfig : ParsedCommandLine) : list string :=
  if win32 h then map (JsString.replace_slashes "\") (fileNames tsConfig)
  else fileNames tsConfig.

(** One turn of the loop of lines 132-135. *)
Definition register_file (build : BuildIncremental) (names : list string)
           (c : Compiler) (file : string) : Compiler :=
  set_groupMap (<[file := names]> (groupMap c))
    (set_fileMap (<[file := build]> (fileMap c)) c).

(** The callback of lines 108-138. *)
Definition start_project (filename tsConfigFile : string) (names : list string)
  : M (list string) :=
  let* c := get in
  let options := buildOptions c names tsConfigFile in
  let* pending := invoke (ServiceBuild options) (service_build h options) (new_build options) in
  let* build := await pending in
  modify (fun c => set_tsConfigMap (<[tsConfigFile := build]> (tsConfigMap c)) c) ;;;
  log_debug "started build"
    [("root", LStr tsConfigFile); ("promptedBy", LStr filename);
     ("files", LNum (length names))] ;;;
  modify (fun c => set_builds (builds c ++ [build]) c) ;;;
  modify (fun c => fold_left (register_file build names) names c) ;;;
  ret names.

(** [startBuilding]: lines 96-139. *)
Definition startBuilding (filename : string) : M unit :=
  let* c := get in
  if truthy_at (fileMap c) filename then ret tt
  else
    let* found := getTSConfig filename in
    let tsConfigFile := fst found in
    let tsConfig := snd found in
    let* c := get in
    if truthy_at (tsConfigMap c) tsConfigFile then ret tt
    else
      let* reported :=
        reportESBuildErrors
          (async (start_project filename tsConfigFile (entryNames tsConfig))) in
      let* _ := await reported in
      ret tt.

(** [compile]: lines 47-50. *)
Definition compile (filename : string) : M string :=
  startBuilding filename ;;;
  let* c := get in
  ret (destination c filename).

(** [fileGroup]: lines 55-58.  Reading [map] of [undefined] raises a
    [TypeError]; so does calling the [map] of an inherited property, which
    has none. *)
Definition fileGroup (filename : string) : M JsObject :=
  let* c := get in
  match groupMap c !! filename with
  | Some files => ret (fromEntries (map (fun file => (file, destination c file)) files))
  | None =>
      if inherited filename then throw (JsTypeError "files.map is not a function")
      else throw (JsTypeError "Cannot read property 'map' of undefined")
  end.

(** [invalidateBuildSet]: lines 37-42. *)
Definition invalidateBuildSet : M unit :=
  let* c := get in
  let* disposals :=
    array_map (fun build => invoke (Dispose build) (rebuild_dispose h build) (ret tt))
              (builds c) in
  let* _ := await (Promise_all (settles_first h) disposals) in
  modify (set_builds []) ;;;
  modify (set_fileMap ∅) ;;;
  modify (set_tsConfigMap ∅).

(** [rebuild]: lines 64-72. *)
Definition rebuild : M unit :=
  let* duration :=
    time (let* c := get in
          let* attempts :=
            array_map
              (fun build =>
                 reportESBuildErrors
                   (invoke (Rebuild build) (build_rebuild h build) (ret tt)))
              (builds c) in
          let* _ := await (Promise_all (settles_first h) attempts) in
          ret tt) in
  log_debug "rebuild" [("duration", LNum duration)].

End Operations.

(** ** Sessions: sequences of operations *)

(** One call of the public interface, with the answers the environment
    gives during that call. *)
Inductive Op : Type :=
| Compile (h : Host) (filename : string)
| RebuildAll (h : Host)
| Invalidate (h : Host).

Definition host_of (op : Op) : Host :=
  match op with
  | Compile h _ | RebuildAll h | Invalidate h => h
  end.

Definition is_invalidate (op : Op) : bool :=
  match op with
  | Invalidate _ => true
  | _ => false
  end.

(** The state after one call, whether it returned or failed. *)
Definition step (c : Compiler) (op : Op) : Compiler :=
  match op with
  | Compile h filename => fst (compile h filename c)
  | RebuildAll h => fst (rebuild h c)
  | Invalidate h => fst (invalidateBuildSet h c)
  end.

Definition run (ops : list Op) (c : Compiler) : Compiler := fold_left step ops c.

(** A sequence of [compile] calls. *)
Definition compiles (calls : list (Host * string)) : list Op :=
  map (fun call => Compile (fst call) (snd call)) calls.

(** ** Reading the registry and the trace *)

(** [filename] resolves to the manifest [m] with parsed content [cfg]. *)
Definition resolves_to (h : Host) (filename m : string) (cfg : ParsedCommandLine) : Prop :=
  findConfigFile h filename = Some m ∧ m ≠ "" ∧ cfg = parseConfigFile h m ∧ errors cfg = [].

(** No manifest is found near [filename]. *)
Definition config_not_found (h : Host) (filename : string) : Prop :=
  findConfigFile h filename = None ∨ findConfigFile h filename = Some "".

(** A manifest is found and its diagnostics are not empty. *)
Definition config_invalid (h : Host) (filename : string) : Prop :=
  ∃ m, findConfigFile h filename = Some m ∧ m ≠ "" ∧ errors (parseConfigFile h m) ≠ [].

(** The member files of the project of manifest [m]. *)
Definition members (h : Host) (m : string) : list string :=
  entryNames h (parseConfigFile h m).

(** Distinct manifests have no member file in common. *)
Definition disjoint_projects (h : Host) : Prop :=
  ∀ f1 f2 m1 m2 g,
    findConfigFile h f1 = Some m1 → findConfigFile h f2 = Some m2 → m1 ≠ m2 →
    g ∈ members h m1 → g ∈ members h m2 → False.

(** [h'] resolves files as [h] does. *)
Definition agrees (h h' : Host) : Prop :=
  win32 h' = win32 h
  ∧ findConfigFile h' = findConfigFile h
  ∧ parseConfigFile h' = parseConfigFile h.

(** The hosts of [ops] resolve files as [h] does. *)
Definition same_projects (h : Host) (ops : list Op) : Prop :=
  Forall (fun op => agrees h (host_of op)) ops.

Fixpoint build_calls (t : list Event) : list BuildOptions :=
  match t with
  | [] => []
  | ServiceBuild options :: t' => options :: build_calls t'
  | _ :: t' => build_calls t'
  end.

Fixpoint rebuild_calls (t : list Event) : list BuildIncremental :=
  match t with
  | [] => []
  | Rebuild b :: t' => b :: rebuild_calls t'
  | _ :: t' => rebuild_calls t'
  end.

Fixpoint dispose_calls (t : list Event) : list BuildIncremental :=
  match t with
  | [] => []
  | Dispose b :: t' => b :: dispose_calls t'
  | _ :: t' => dispose_calls t'
  end.

Fixpoint resolutions (t : list Event) : list string :=
  match t with
  | [] => []
  | FindConfigFile f :: t' => f :: resolutions t'
  | _ :: t' => resolutions t'
  end.

Fixpoint logged_errors (t : list Event) : list exn :=
  match t with
  | [] => []
  | LogError e :: t' => e :: logged_errors t'
  | _ :: t' => logged_errors t'
  end.

(** Number of [service.build] calls made for the manifest [m]. *)
Definition starts_for (m : string) (t : list Event) : nat :=
  length (filter (fun o => tsconfig o = m) (build_calls t)).

(** Number of live handles started for the manifest [m]. *)
Definition live_for (m : string) (c : Compiler) : nat :=
  length (filter (fun b => tsconfig (build_options b) = m) (builds c)).

(** The invariant of the registry as the specification words it. *)
Definition registry_invariant (c : Compiler) : Prop :=
  ∀ f G, groupMap c !! f = Some G →
    f ∈ G ∧ ∀ g, g ∈ G → is_Some (fileMap c !! g) ∧ fileMap c !! g = fileMap c !! f.

(** The same, for the files that have a process. *)
Definition registered_invariant (c : Compiler) : Prop :=
  ∀ f b, fileMap c !! f = Some b →
    ∃ G, groupMap c !! f = Some G ∧ f ∈ G ∧ ∀ g, g ∈ G → fileMap c !! g = Some b.

(** The call [compile(filename)], made in the state [c] with the answers
    of [h], starts the project of manifest [m] and registers the files
    [names]: both reads give nothing, the resolution succeeds and
    [service.build] fulfils. *)
Definition starts (h : Host) (filename : string) (c : Compiler)
           (m : string) (names : list string) : Prop :=
  truthy_at (fileMap c) filename = false
  ∧ truthy_at (tsConfigMap c) m = false
  ∧ ∃ cfg, resolves_to h filename m cfg
           ∧ names = entryNames h cfg
           ∧ service_build h (buildOptions c names m) = Fulfils.

(** Of the files registered to any one process, [names] has all or
    none. *)
Definition takes_over_whole (c : Compiler) (names : list string) : Prop :=
  ∀ g f b, g ∈ names → fileMap c !! g = Some b → fileMap c !! f = Some b → f ∈ names.

(** The call [op], made in the state [c], starts no project that has some
    but not all of the files registered to a process. *)
Definition takeover_ok (c : Compiler) (op : Op) : Prop :=
  match op with
  | Compile h filename =>
      ∀ m names, starts h filename c m names → takes_over_whole c names
  | _ => True
  end.

(** The same for every call of the session [ops] made from [c]. *)
Fixpoint whole_takeovers (ops : list Op) (c : Compiler) : Prop :=
  match ops with
  | [] => True
  | op :: ops' => takeover_ok c op ∧ whole_takeovers ops' (step c op)
  end.

(** Every file with a process belongs to a registered project of [h]:
    its group is the member list of that project, all of whose files have
    that same process. *)
Definition registry_coherent (h : Host) (c : Compiler) : Prop :=
  ∀ f b, fileMap c !! f = Some b →
    ∃ f0 m,
      findConfigFile h f0 = Some m
      ∧ tsConfigMap c !! m = Some b
      ∧ f ∈ members h m
      ∧ groupMap c !! f = Some (members h m)
      ∧ ∀ g, g ∈ members h m → fileMap c !! g = Some b.

(** Every file with a group has a process. *)
Definition groups_have_process (c : Compiler) : Prop :=
  ∀ f G, groupMap c !! f = Some G → is_Some (fileMap c !! f).

(** The situation of a file that [compile] does not register: the reads
    [fileMap[filename]] and [groupMap[filename]] give nothing, and the
    project of the file does not list it or the read [tsConfigMap[m]]
    gives something. *)
Definition unregistered (h : Host) (filename m : string) (cfg : ParsedCommandLine)
           (c : Compiler) : Prop :=
  truthy_at (fileMap c) filename = false
  ∧ groupMap c !! filename = None
  ∧ (filename ∉ entryNames h cfg ∨ truthy_at (tsConfigMap c) m = true).

(** The first occurrences of the elements of a list, in order. *)
Fixpoint first_occurrences (l : list string) : list string :=
  match l with
  | [] => []
  | x :: l' => x :: filter (fun y => y ≠ x) (first_occurrences l')
  end.

Definition own_keys (o : JsObject) : list string := map fst o.

Fixpoint get_property (o : JsObject) (k : string) : option string :=
  match o with
  | [] => None
  | (k', v) :: o' => if String.eqb k' k then Some v else get_property o' k
  end.

(** ** The outcomes of the operations *)

(** [m[k] = v] for every [k] of [keys], in order. *)
Definition insert_all {V} (keys : list string) (v : V) (m : gmap string V)
  : gmap string V :=
  fold_left (fun m k => <[k := v]> m) keys m.

(** [c'] is [c] with the events [evs] added to the trace. *)
Definition traced (evs : list Event) (c : Compiler) : Compiler :=
  set_trace (trace c ++ evs) c.

Definition started_build (c : Compiler) (m : string) (names : list string)
  : BuildIncremental :=
  {| build_id := allocated c; build_options := buildOptions c names m |}.

(** [c'] is [c] after [startBuilding filename] has started and registered
    the project of manifest [m] with the member files [names]. *)
Definition started_from (c : Compiler) (filename m : string)
           (names : list string) (c' : Compiler) : Prop :=
  let build := started_build c m names in
  workspaceRoot c' = workspaceRoot c
  ∧ workDir c' = workDir c
  ∧ builds c' = builds c ++ [build]
  ∧ fileMap c' = insert_all names build (fileMap c)
  ∧ tsConfigMap c' = <[m := build]> (tsConfigMap c)
  ∧ groupMap c' = insert_all names names (groupMap c)
  ∧ allocated c' = S (allocated c)
  ∧ trace c' = trace c ++
      [FindConfigFile filename;
       ServiceBuild (buildOptions c names m);
       LogDebug "started build"
         [("root", LStr m); ("promptedBy", LStr filename);
          ("files", LNum (length names))]].

(** The five ways [startBuilding] ends. *)
Inductive startBuilding_ends (h : Host) (filename : string) (c : Compiler)
  : Compiler -> completion unit -> Prop :=
| sb_known :
    truthy_at (fileMap c) filename = true ->
    startBuilding_ends h filename c c (Normal tt)
| sb_unresolved e :
    truthy_at (fileMap c) filename = false ->
    snd (getTSConfig h filename c) = Abrupt e ->
    startBuilding_ends h filename c (traced [FindConfigFile filename] c) (Abrupt e)
| sb_live m cfg :
    truthy_at (fileMap c) filename = false ->
    resolves_to h filename m cfg ->
    truthy_at (tsConfigMap c) m = true ->
    startBuilding_ends h filename c (traced [FindConfigFile filename] c) (Normal tt)
| sb_failed m cfg e :
    truthy_at (fileMap c) filename = false ->
    resolves_to h filename m cfg ->
    truthy_at (tsConfigMap c) m = false ->
    failure (service_build h (buildOptions c (entryNames h cfg) m)) = Some e ->
    startBuilding_ends h filename c
      (traced [FindConfigFile filename;
               ServiceBuild (buildOptions c (entryNames h cfg) m);
               LogError e] c)
      (Normal tt)
| sb_started m cfg c' :
    truthy_at (fileMap c) filename = false ->
    resolves_to h filename m cfg ->
    truthy_at (tsConfigMap c) m = false ->
    service_build h (buildOptions c (entryNames h cfg) m) = Fulfils ->
    started_from c filename m (entryNames h cfg) c' ->
    startBuilding_ends h filename c c' (Normal tt).

(** What [rebuild] adds to the trace while it calls every handle: each
    call, and at once the error of a call that throws. *)
Definition rebuild_call_events (h : Host) (b : BuildIncremental) : list Event :=
  Rebuild b :: match build_rebuild h b with
               | Throws e => [LogError e]
               | _ => []
               end.

(** What it adds when the promises settle: the error of each rejection. *)
Definition rebuild_settle_events (h : Host) (b : BuildIncremental) : list Event :=
  match build_rebuild h b with
  | Rejects e => [LogError e]
  | _ => []
  end.

(** One element of the fan-out of [rebuild]. *)
Definition attempt (h : Host) (b : BuildIncremental) : M (Promise (option unit)) :=
  reportESBuildErrors (invoke (Rebuild b) (build_rebuild h b) (ret tt)).

(** One element of the fan-out of [invalidateBuildSet]. *)
Definition disposal (h : Host) (b : BuildIncremental) : M (Promise unit) :=
  invoke (Dispose b) (rebuild_dispose h b) (ret tt).

(** The promise a call of [dispose] leaves behind, when it returns. *)
Definition dispose_promise (h : Host) (b : BuildIncremental) : Promise unit :=
  match rebuild_dispose h b with
  | Rejects e => throw e
  | _ => ret tt
  end.

(** The handles on which [invalidateBuildSet] calls [dispose]: those up
    to and including the first whose call throws, all of them when no
    call throws. *)
Fixpoint called_until_throw (h : Host) (bs : list BuildIncremental)
  : list BuildIncremental :=
  match bs with
  | [] => []
  | b :: bs' =>
      match rebuild_dispose h b with
      | Throws _ => [b]
      | _ => b :: called_until_throw h bs'
      end
  end.

(** The error of the first call of [dispose] that throws. *)
Fixpoint first_throw (h : Host) (bs : list BuildIncremental) : option exn :=
  match bs with
  | [] => None
  | b :: bs' =>
      match rebuild_dispose h b with
      | Throws e => Some e
      | _ => first_throw h bs'
      end
  end.

(** The reasons of the promises of [dispose] that are rejected, in the
    order of the handles. *)
Definition dispose_rejections (h : Host) (bs : list BuildIncremental) : list exn :=
  flat_map (fun b => match rebuild_dispose h b with
                     | Rejects e => [e]
                     | _ => []
                     end) bs.

(** The registry after a successful [invalidateBuildSet]. *)
Definition invalidated (c : Compiler) : Compiler :=
  set_tsConfigMap ∅ (set_fileMap ∅ (set_builds [] c)).

(** ** Sample hosts and sessions *)

(** A POSIX host with one project, [/root/tsconfig.json], whose members are
    [/root/src/a.ts] and [/root/src/b.tsx]; every call succeeds. *)
Definition posix_host : Host :=
  {| win32 := false;
     path_join := PosixPath.join;
     findConfigFile := fun f =>
       if JsString.startsWith "/root/" f then Some "/root/tsconfig.json" else None;
     parseConfigFile := fun _ =>
       {| errors := []; fileNames := ["/root/src/a.ts"; "/root/src/b.tsx"] |};
     service_build := fun _ => Fulfils;
     build_rebuild := fun _ => Fulfils;
     rebuild_dispose := fun _ => Fulfils;
     elapsed := 0;
     settles_first := 0 |}.

(** The same host when esbuild fails: [service.build] and [rebuild] reject,
    [dispose] throws. *)
Definition failing_host : Host :=
  {| win32 := false;
     path_join := PosixPath.join;
     findConfigFile := findConfigFile posix_host;
     parseConfigFile := parseConfigFile posix_host;
     service_build := fun _ => Rejects (JsError "build failed");
     build_rebuild := fun _ => Rejects (JsError "rebuild failed");
     rebuild_dispose := fun _ => Throws (JsError "dispose failed");
     elapsed := 0;
     settles_first := 0 |}.

(** A host with two projects that share [/lib/y.ts]: [/p/tsconfig.json]
    lists [/p/x.ts] and [/lib/y.ts], [/q/tsconfig.json] lists [/lib/y.ts]
    and [/q/z.ts]. *)
Definition overlap_host : Host :=
  {| win32 := false;
     path_join := PosixPath.join;
     findConfigFile := fun f =>
       if JsString.startsWith "/p/" f then Some "/p/tsconfig.json"
       else if JsString.startsWith "/q/" f then Some "/q/tsconfig.json"
       else None;
     parseConfigFile := fun m =>
       if String.eqb m "/p/tsconfig.json"
       then {| errors := []; fileNames := ["/p/x.ts"; "/lib/y.ts"] |}
       else {| errors := []; fileNames := ["/lib/y.ts"; "/q/z.ts"] |};
     service_build := fun _ => Fulfils;
     build_rebuild := fun _ => Fulfils;
     rebuild_dispose := fun _ => Fulfils;
     elapsed := 0;
     settles_first := 0 |}.

(** A host with two projects: [/p/tsconfig.json] lists [/p/x.ts] only,
    and [/q/tsconfig.json] lists [/q/z.ts] and [/p/stray.ts], a file of the
    directory of the other project. *)
Definition stray_host : Host :=
  {| win32 := false;
     path_join := PosixPath.join;
     findConfigFile := fun f =>
       if JsString.startsWith "/p/" f then Some "/p/tsconfig.json"
       else if JsString.startsWith "/q/" f then Some "/q/tsconfig.json"
       else None;
     parseConfigFile := fun m =>
       if String.eqb m "/p/tsconfig.json"
       then {| errors := []; fileNames := ["/p/x.ts"] |}
       else {| errors := []; fileNames := ["/q/z.ts"; "/p/stray.ts"] |};
     service_build := fun _ => Fulfils;
     build_rebuild := fun _ => Fulfils;
     rebuild_dispose := fun _ => Fulfils;
     elapsed := 0;
     settles_first := 0 |}.

(** A host with two projects, one inside the other: [/p/tsconfig.json]
    lists [/p/x.ts], and [/q/tsconfig.json] lists [/q/z.ts] and
    [/p/x.ts]. *)
Definition nested_host : Host :=
  {| win32 := false;
     path_join := PosixPath.join;
     findConfigFile := fun f =>
       if JsString.startsWith "/p/" f then Some "/p/tsconfig.json"
       else if JsString.startsWith "/q/" f then Some "/q/tsconfig.json"
       else None;
     parseConfigFile := fun m =>
       if String.eqb m "/p/tsconfig.json"
       then {| errors := []; fileNames := ["/p/x.ts"] |}
       else {| errors := []; fileNames := ["/q/z.ts"; "/p/x.ts"] |};
     service_build := fun _ => Fulfils;
     build_rebuild := fun _ => Fulfils;
     rebuild_dispose := fun _ => Fulfils;
     elapsed := 0;
     settles_first := 0 |}.

(** A host on which a manifest is found near every file. *)
Definition lenient_host : Host :=
  {| win32 := false;
     path_join := PosixPath.join;
     findConfigFile := fun _ => Some "/root/tsconfig.json";
     parseConfigFile := parseConfigFile posix_host;
     service_build := fun _ => Fulfils;
     build_rebuild := fun _ => Fulfils;
     rebuild_dispose := fun _ => Fulfils;
     elapsed := 0;
     settles_first := 0 |}.

(** A host with three projects, [/p1], [/p2] and [/p3], of one file each;
    the handle created second fails to rebuild. *)
Definition three_projects_host : Host :=
  {| win32 := false;
     path_join := PosixPath.join;
     findConfigFile := fun f =>
       if JsString.startsWith "/p1/" f then Some "/p1/tsconfig.json"
       else if JsString.startsWith "/p2/" f then Some "/p2/tsconfig.json"
       else if JsString.startsWith "/p3/" f then Some "/p3/tsconfig.json"
       else None;
     parseConfigFile := fun m =>
       if String.eqb m "/p1/tsconfig.json"
       then {| errors := []; fileNames := ["/p1/main.ts"] |}
       else if String.eqb m "/p2/tsconfig.json"
       then {| errors := []; fileNames := ["/p2/main.ts"] |}
       else {| errors := []; fileNames := ["/p3/main.ts"] |};
     service_build := fun _ => Fulfils;
     build_rebuild := fun b =>
       if Nat.eqb (build_id b) 1 then Rejects (JsError "rebuild failed") else Fulfils;
     rebuild_dispose := fun _ => Fulfils;
     elapsed := 7;
     settles_first := 0 |}.

Definition session0 : Compiler := new_Compiler "/root" "/out".

(** The session after [/root/src/a.ts] has been compiled. *)
Definition one_live : Compiler :=
  run [Compile posix_host "/root/src/a.ts"] session0.

(** Three live processes, the second of which fails to rebuild. *)
Definition three_live : Compiler :=
  run [Compile three_projects_host "/p1/main.ts";
       Compile three_projects_host "/p2/main.ts";
       Compile three_projects_host "/p3/main.ts"] session0.

(** ** Further readings of strings, of the registry and of hosts *)

(** [s.includes(pat)]. *)
Fixpoint occurs (pat s : string) : bool :=
  JsString.startsWith pat s
  || match s with
     | EmptyString => false
     | String _ s' => occurs pat s'
     end.

(** [s.endsWith(suffix)]. *)
Fixpoint ends_with (suffix s : string) : bool :=
  String.eqb s suffix
  || match s with
     | EmptyString => false
     | String _ s' => ends_with suffix s'
     end.

(** [s.includes("/")]. *)
Fixpoint has_slash (s : string) : bool :=
  match s with
  | EmptyString => false
  | String c s' => Ascii.eqb c "/" || has_slash s'
  end.

(** What follows the last slash of [s]; [s] itself when it has none. *)
Definition last_segment (s : string) : string :=
  List.last (JsString.split_slash s) "".

(** The handles of the registry are sound: the live handles are distinct
    objects already created; a live handle is the process of the manifest
    it was started for, and a manifest's process is live and was started
    for it; the process of a file is live, was started with the file among
    its entry points, and the group of the file is that list of entry
    points; a file belongs to its group. *)
Definition handles_sound (c : Compiler) : Prop :=
  NoDup (map build_id (builds c))
  ∧ (∀ b, b ∈ builds c →
       build_id b < allocated c
       ∧ tsConfigMap c !! tsconfig (build_options b) = Some b)
  ∧ (∀ m b, tsConfigMap c !! m = Some b →
       b ∈ builds c ∧ tsconfig (build_options b) = m)
  ∧ (∀ f b, fileMap c !! f = Some b →
       b ∈ builds c
       ∧ f ∈ entryPoints (build_options b)
       ∧ groupMap c !! f = Some (entryPoints (build_options b)))
  ∧ (∀ f G, groupMap c !! f = Some G → f ∈ G).

(** A win32 host with one project, whose manifest lists [C:/ws/src/a.ts]
    as TypeScript reports it, with forward slashes.  Its [path_join] only
    glues the parts with a backslash: the win32 flavour of [path.join] is
    not modelled. *)
Definition win32_host : Host :=
  {| win32 := true;
     path_join := JsString.join "\";
     findConfigFile := fun _ => Some "C:/ws/tsconfig.json";
     parseConfigFile := fun _ => {| errors := []; fileNames := ["C:/ws/src/a.ts"] |};
     service_build := fun _ => Fulfils;
     build_rebuild := fun _ => Fulfils;
     rebuild_dispose := fun _ => Fulfils;
     elapsed := 0;
     settles_first := 0 |}.

(** ** Calls that overlap *)

(** The callback of lines 108-138 as far as its [await]: [service.build]
    is called and its promise is in hand. *)
Definition start_project_call (h : Host) (tsConfigFile : string) (names : list string)
  : M (Promise BuildIncremental) :=
  let* c := get in
  let options := buildOptions c names tsConfigFile in
  invoke (ServiceBuild options) (service_build h options) (new_build options).

(** The callback from its [await] on: lines 109-137. *)
Definition start_project_resume (filename tsConfigFile : string) (names : list string)
           (pending : Promise BuildIncremental) : M (list string) :=
  let* build := await pending in
  modify (fun c => set_tsConfigMap (<[tsConfigFile := build]> (tsConfigMap c)) c) ;;;
  log_debug "started build"
    [("root", LStr tsConfigFile); ("promptedBy", LStr filename);
     ("files", LNum (length names))] ;;;
  modify (fun c => set_builds (builds c ++ [build]) c) ;;;
  modify (fun c => fold_left (register_file build names) names c) ;;;
  ret names.

(** A call of [startBuilding] that has been made and is not awaited to its
    end: it has returned, or it is suspended at the [await] of line 98 with
    the outcome of the resolution, or at the [await] of line 109 with the
    promise of [service.build]. *)
Inductive Suspended : Type :=
| Settled (r : completion unit)
| AtResolution (filename : string) (found : completion (string * ParsedCommandLine))
| AtBuild (filename tsConfigFile : string) (names : list string)
          (pending : Promise BuildIncremental).

(** What [startBuilding(filename)] does when it is called, up to its first
    [await]: lines 97-98. *)
Definition startBuilding_call (h : Host) (filename : string) (c : Compiler)
  : Compiler * Suspended :=
  if truthy_at (fileMap c) filename then (c, Settled (Normal tt))
  else let (c', found) := getTSConfig h filename c in (c', AtResolution filename found).

(** What a suspended call does when it is resumed, up to its next [await]
    or to its end: lines 98-109, or lines 109-138 with the [catch] of
    [reportESBuildErrors]. *)
Definition startBuilding_resume (h : Host) (s : Suspended) (c : Compiler)
  : Compiler * Suspended :=
  match s with
  | Settled r => (c, s)
  | AtResolution filename (Abrupt e) => (c, Settled (Abrupt e))
  | AtResolution filename (Normal (tsConfigFile, tsConfig)) =>
      if truthy_at (tsConfigMap c) tsConfigFile then (c, Settled (Normal tt))
      else
        let names := entryNames h tsConfig in
        match start_project_call h tsConfigFile names c with
        | (c', Normal pending) => (c', AtBuild filename tsConfigFile names pending)
        | (c', Abrupt e) => (c', AtBuild filename tsConfigFile names (throw e))
        end
  | AtBuild filename tsConfigFile names pending =>
      match start_project_resume filename tsConfigFile names pending c with
      | (c', Normal _) => (c', Settled (Normal tt))
      | (c', Abrupt e) => (fst (log_error e c'), Settled (Normal tt))
      end
  end.

(** Two calls of [startBuilding] made without awaiting the first: both run
    to their first [await], then each is resumed in turn, twice. *)
Definition startBuilding_overlapped (h : Host) (f1 f2 : string) (c : Compiler)
  : Compiler * (Suspended * Suspended) :=
  let (c1, s1) := startBuilding_call h f1 c in
  let (c2, s2) := startBuilding_call h f2 c1 in
  let (c3, s1') := startBuilding_resume h s1 c2 in
  let (c4, s2') := startBuilding_resume h s2 c3 in
  let (c5, s1'') := startBuilding_resume h s1' c4 in
  let (c6, s2'') := startBuilding_resume h s2' c5 in
  (c6, (s1'', s2'')).

(** One call awaited to its end. *)
Definition startBuilding_alone (h : Host) (filename : string) (c : Compiler)
  : Compiler * Suspended :=
  let (c1, s1) := startBuilding_call h filename c in
  let (c2, s2) := startBuilding_resume h s1 c1 in
  startBuilding_resume h s2 c2.

(** * Properties *)

Example posix_join_abs : PosixPath.join ["/out"; "/src/a.js"] = "/out/src/a.js".
Proof. reflexivity. Qed.

Example posix_join_dots : PosixPath.join ["/out/x"; "../y/./z.js"] = "/out/y/z.js".
Proof. reflexivity. Qed.

Example posix_join_empty : PosixPath.join [""; ""] = ".".
Proof. reflexivity. Qed.

Example compile_a : snd (compile posix_host "/root/src/a.ts" session0) = Normal "/out/src/a.js".
Proof. vm_compute. reflexivity. Qed.

Example compile_a_builds :
  length (builds (fst (compile posix_host "/root/src/a.ts" session0))) = 1.
Proof. vm_compute. reflexivity. Qed.

(** ** Strings *)

Section StringFacts.

Import JsString.

Lemma replace_unfold pat rep s :
  replace pat rep s =
  if startsWith pat s then rep +:+ slice_from (String.length pat) s
  else match s with
       | EmptyString => EmptyString
       | String c s' => String c (replace pat rep s')
       end.
Proof. destruct s; reflexivity. Qed.

Lemma replace_dot_tsx_end_unfold rep s :
  replace_dot_tsx_end rep s =
  if matches_dot_tsx_end s then rep
  else match s with
       | EmptyString => EmptyString
       | String c s' => String c (replace_dot_tsx_end rep s')
       end.
Proof. destruct s; reflexivity. Qed.

Lemma startsWith_append pat s : startsWith pat (pat +:+ s) = true.
Proof.
  induction pat as [|a pat IH]; simpl; [reflexivity|].
  rewrite Ascii.eqb_refl. exact IH.
Qed.

Lemma slice_from_append pat s : slice_from (String.length pat) (pat +:+ s) = s.
Proof. induction pat as [|a pat IH]; simpl; [by destruct s | exact IH]. Qed.

(** Removing the workspace root from a path that starts with it leaves
    the rest of the path. *)
Lemma replace_leading pat s : replace pat "" (pat +:+ s) = s.
Proof.
  rewrite replace_unfold, startsWith_append, slice_from_append. reflexivity.
Qed.

Lemma string_length_append (s t : string) :
  String.length (s +:+ t) = String.length s + String.length t.
Proof. induction s as [|a s IH]; simpl; [reflexivity | by rewrite IH]. Qed.

Lemma eqb_false_of_length (s t : string) :
  String.length s ≠ String.length t → String.eqb s t = false.
Proof. intros Hlen. apply String.eqb_neq. intros ->. by apply Hlen. Qed.

(** A string of four characters or more is neither [ts] nor [tsx]. *)
Lemma matches_dot_tsx_end_long c s :
  3 < String.length s → matches_dot_tsx_end (String c s) = false.
Proof.
  intros Hlen. unfold matches_dot_tsx_end.
  rewrite !eqb_false_of_length by (simpl; lia).
  by rewrite andb_false_r.
Qed.

Lemma matches_dot_tsx_end_ts_inside a p c :
  matches_dot_tsx_end (String a (p +:+ String c "ts")) = false.
Proof.
  unfold matches_dot_tsx_end.
  destruct p as [|b p].
  - simpl. destruct (Ascii.eqb c "t"); simpl; apply andb_false_r.
  - rewrite !eqb_false_of_length; [apply andb_false_r | |];
      rewrite string_length_append; simpl; lia.
Qed.

(** The pattern matches a final [ts] preceded by any character of the
    dot class: those three characters are replaced. *)
Lemma replace_dot_ts rep p c :
  dot_matches c = true →
  replace_dot_tsx_end rep (p +:+ String c "ts") = p +:+ rep.
Proof.
  intros Hdot. induction p as [|a p IH].
  - simpl. rewrite Hdot. reflexivity.
  - change (String a p +:+ String c "ts") with (String a (p +:+ String c "ts")).
    rewrite replace_dot_tsx_end_unfold, matches_dot_tsx_end_ts_inside, IH.
    reflexivity.
Qed.

(** The same for a final [tsx]: four characters are replaced. *)
Lemma replace_dot_tsx rep p c :
  dot_matches c = true →
  replace_dot_tsx_end rep (p +:+ String c "tsx") = p +:+ rep.
Proof.
  intros Hdot. induction p as [|a p IH].
  - simpl. rewrite Hdot. reflexivity.
  - change (String a p +:+ String c "tsx") with (String a (p +:+ String c "tsx")).
    rewrite replace_dot_tsx_end_unfold, matches_dot_tsx_end_long, IH; [reflexivity|].
    rewrite string_length_append. simpl. lia.
Qed.

(** A line terminator before the final [ts] or [tsx] prevents the match
    there, and no match can start elsewhere. *)
Lemma replace_line_terminator_ts rep p c :
  is_line_terminator c = true →
  replace_dot_tsx_end rep (p +:+ String c "ts") = p +:+ String c "ts".
Proof.
  intros Hlt. induction p as [|a p IH].
  - simpl. unfold dot_matches. rewrite Hlt. reflexivity.
  - change (String a p +:+ String c "ts") with (String a (p +:+ String c "ts")).
    rewrite replace_dot_tsx_end_unfold, matches_dot_tsx_end_ts_inside, IH.
    reflexivity.
Qed.

End StringFacts.

(** ** Running the operations *)

Ltac run_m :=
  unfold invoke, async, await, time, log_error, log_debug, new_build, traced;
  unfold emit;
  unfold bind, ret, throw, get, modify, try_catch; simpl.

Lemma traced_traced evs evs' c : traced evs' (traced evs c) = traced (evs ++ evs') c.
Proof. unfold traced, set_trace. simpl. by rewrite app_assoc. Qed.

Lemma traced_nil c : traced [] c = c.
Proof. destruct c. unfold traced, set_trace. simpl. by rewrite app_nil_r. Qed.

Section Resolution.

Variable h : Host.

Lemma getTSConfig_state filename c :
  fst (getTSConfig h filename c) = traced [FindConfigFile filename] c.
Proof.
  unfold getTSConfig. run_m.
  destruct (findConfigFile h filename) as [m|]; [|reflexivity].
  destruct (String.eqb m ""); [reflexivity|].
  destruct (errors (parseConfigFile h m)); reflexivity.
Qed.

Lemma getTSConfig_resolves filename m cfg c :
  resolves_to h filename m cfg →
  getTSConfig h filename c = (traced [FindConfigFile filename] c, Normal (m, cfg)).
Proof.
  intros (Hfind & Hm & -> & Herr). unfold getTSConfig. run_m.
  rewrite Hfind. apply String.eqb_neq in Hm. rewrite Hm, Herr. reflexivity.
Qed.

Lemma getTSConfig_Normal filename m cfg c :
  snd (getTSConfig h filename c) = Normal (m, cfg) → resolves_to h filename m cfg.
Proof.
  unfold getTSConfig, resolves_to. run_m.
  destruct (findConfigFile h filename) as [m'|]; [|discriminate].
  destruct (String.eqb_spec m' ""); [discriminate|].
  destruct (errors (parseConfigFile h m')) eqn:Herr; [|discriminate].
  simpl. intros [= <- <-]. done.
Qed.

Lemma getTSConfig_fails filename c :
  config_not_found h filename ∨ config_invalid h filename →
  ∃ e, snd (getTSConfig h filename c) = Abrupt e.
Proof.
  unfold getTSConfig. run_m.
  intros [[Hnone | Hempty] | (m & Hfind & Hm & Herr)].
  - rewrite Hnone. eauto.
  - rewrite Hempty. simpl. eauto.
  - rewrite Hfind. apply String.eqb_neq in Hm. rewrite Hm.
    destruct (errors (parseConfigFile h m)); [done | simpl; eauto].
Qed.

Lemma getTSConfig_cases filename c :
  (∃ m cfg, resolves_to h filename m cfg
            ∧ snd (getTSConfig h filename c) = Normal (m, cfg))
  ∨ (∃ e, snd (getTSConfig h filename c) = Abrupt e).
Proof.
  destruct (snd (getTSConfig h filename c)) as [[m cfg]|e] eqn:Hres.
  - left. exists m, cfg. split; [|done]. by eapply getTSConfig_Normal.
  - right. eauto.
Qed.

End Resolution.

(** ** Reading a property of a plain object *)

Lemma truthy_at_own {V} (m : gmap string V) k v : m !! k = Some v → truthy_at m k = true.
Proof. unfold truthy_at. by intros ->. Qed.

Lemma truthy_at_inherited {V} (m : gmap string V) k :
  inherited k = true → truthy_at m k = true.
Proof. unfold truthy_at. intros ->. by destruct (m !! k). Qed.

Lemma truthy_at_false {V} (m : gmap string V) k :
  truthy_at m k = false ↔ m !! k = None ∧ inherited k = false.
Proof.
  unfold truthy_at. destruct (m !! k); [|by split; [|intros [_ ?]]].
  split; [done | by intros [[=] _]].
Qed.

Lemma truthy_at_true {V} (m : gmap string V) k :
  truthy_at m k = true ↔ is_Some (m !! k) ∨ inherited k = true.
Proof.
  unfold truthy_at. destruct (m !! k) eqn:Hk; split; eauto.
  intros [[? [=]]|?]; done.
Qed.

Lemma truthy_at_empty {V} k : truthy_at (∅ : gmap string V) k = inherited k.
Proof. unfold truthy_at. by rewrite lookup_empty. Qed.

Section Registration.

Lemma lookup_insert_all {V} (keys : list string) (v : V) (m : gmap string V) k :
  insert_all keys v m !! k = if decide (k ∈ keys) then Some v else m !! k.
Proof.
  unfold insert_all. revert m.
  induction keys as [|k' keys IH]; intros m.
  - destruct (decide (k ∈ [])) as [Hin|_]; [by apply elem_of_nil in Hin | done].
  - change (fold_left (fun m k => <[k := v]> m) (k' :: keys) m)
      with (fold_left (fun m k => <[k := v]> m) keys (<[k' := v]> m)).
    rewrite IH. destruct (decide (k ∈ keys)) as [Hin|Hnin].
    + rewrite decide_True; [done | by right].
    + destruct (decide (k = k')) as [->|Hne].
      * rewrite decide_True by left. by rewrite lookup_insert_eq.
      * rewrite decide_False by (by intros [?|?]%elem_of_cons).
        by rewrite lookup_insert_ne.
Qed.

Lemma lookup_insert_all_elem {V} (keys : list string) (v : V) (m : gmap string V) k :
  k ∈ keys → insert_all keys v m !! k = Some v.
Proof. intros Hin. rewrite lookup_insert_all. by rewrite decide_True. Qed.

Lemma lookup_insert_all_other {V} (keys : list string) (v : V) (m : gmap string V) k :
  k ∉ keys → insert_all keys v m !! k = m !! k.
Proof. intros Hnin. rewrite lookup_insert_all. by rewrite decide_False. Qed.

Variables (build : BuildIncremental) (names : list string).

Lemma register_files_fields (l : list string) (c : Compiler) :
  let c' := fold_left (register_file build names) l c in
  workspaceRoot c' = workspaceRoot c ∧ workDir c' = workDir c
  ∧ builds c' = builds c ∧ tsConfigMap c' = tsConfigMap c
  ∧ allocated c' = allocated c ∧ trace c' = trace c
  ∧ fileMap c' = insert_all l build (fileMap c)
  ∧ groupMap c' = insert_all l names (groupMap c).
Proof.
  revert c. induction l as [|file l IH]; intros c; simpl; [done|].
  destruct (IH (register_file build names c file))
    as (-> & -> & -> & -> & -> & -> & -> & ->).
  done.
Qed.

End Registration.

Section StartBuilding.

Variable h : Host.

Lemma startBuilding_cases filename c :
  startBuilding_ends h filename c
    (fst (startBuilding h filename c)) (snd (startBuilding h filename c)).
Proof.
  destruct (startBuilding h filename c) as [c' r] eqn:Hrun. simpl.
  unfold startBuilding in Hrun. unfold bind at 1 in Hrun. unfold get at 1 in Hrun.
  destruct (truthy_at (fileMap c) filename) eqn:Hfile.
  { injection Hrun as <- <-. by apply sb_known. }
  unfold bind at 1 in Hrun.
  destruct (getTSConfig_cases h filename c) as [(m & cfg & Hres & _)|[e He]].
  2:{ assert (Hg : getTSConfig h filename c
                   = (traced [FindConfigFile filename] c, Abrupt e)).
      { rewrite <- (getTSConfig_state h filename c), <- He.
        by destruct (getTSConfig h filename c). }
      rewrite Hg in Hrun. injection Hrun as <- <-. by apply sb_unresolved. }
  rewrite (getTSConfig_resolves h filename m cfg c Hres) in Hrun. simpl in Hrun.
  unfold bind at 1 in Hrun. unfold get at 1 in Hrun.
  change (tsConfigMap (traced [FindConfigFile filename] c)) with (tsConfigMap c) in Hrun.
  destruct (truthy_at (tsConfigMap c) m) eqn:Hlive.
  { injection Hrun as <- <-. by eapply sb_live. }
  unfold reportESBuildErrors, start_project in Hrun. revert Hrun. run_m.
  change (buildOptions (set_trace (trace c ++ [FindConfigFile filename]) c))
    with (buildOptions c).
  destruct (service_build h (buildOptions c (entryNames h cfg) m)) as [|e|e] eqn:Hbuild;
    simpl; intros [= <- <-].
  - eapply sb_started; eauto.
    unfold started_from.
    match goal with
    | |- context [fold_left (register_file ?b ?n) ?l ?c0] =>
        destruct (register_files_fields b n l c0) as (-> & -> & -> & -> & -> & -> & -> & ->)
    end.
    simpl. rewrite <- !app_assoc. done.
  - rewrite <- !app_assoc. simpl.
    eapply (sb_failed h filename c m cfg e); eauto. by rewrite Hbuild.
  - rewrite <- !app_assoc. simpl.
    eapply (sb_failed h filename c m cfg e); eauto. by rewrite Hbuild.
Qed.

End StartBuilding.

Section Compile.

Variable h : Host.

Lemma startBuilding_keeps_settings filename c :
  workspaceRoot (fst (startBuilding h filename c)) = workspaceRoot c
  ∧ workDir (fst (startBuilding h filename c)) = workDir c.
Proof.
  destruct (startBuilding_cases h filename c)
    as [?|e ? ?|m cfg ? ? ?|m cfg e ? ? ? ?|m cfg c' ? ? ? ? Hst]; try done.
  by destruct Hst as (-> & -> & _).
Qed.

Lemma destination_settings c c' filename :
  workspaceRoot c' = workspaceRoot c → workDir c' = workDir c →
  destination h c' filename = destination h c filename.
Proof. unfold destination. by intros -> ->. Qed.

Lemma compile_state filename c :
  fst (compile h filename c) = fst (startBuilding h filename c).
Proof.
  unfold compile. run_m.
  destruct (startBuilding h filename c) as [c' [[]|e]]; reflexivity.
Qed.

Lemma compile_result filename c :
  snd (compile h filename c) =
  match snd (startBuilding h filename c) with
  | Normal _ => Normal (destination h c filename)
  | Abrupt e => Abrupt e
  end.
Proof.
  destruct (startBuilding_keeps_settings filename c) as [Hroot Hdir].
  unfold compile. run_m.
  destruct (startBuilding h filename c) as [c' [[]|e]]; simpl in *; [|reflexivity].
  by rewrite (destination_settings c c').
Qed.

End Compile.

Section FanOut.

Variable h : Host.

Lemma attempt_run b c :
  ∃ p, attempt h b c = (traced (rebuild_call_events h b) c, Normal p)
       ∧ ∀ c', ∃ r, p c' = (traced (rebuild_settle_events h b) c', Normal r).
Proof.
  unfold attempt, reportESBuildErrors, rebuild_call_events, rebuild_settle_events.
  run_m. destruct (build_rebuild h b) as [|e|e]; simpl.
  - eexists. split; [reflexivity|]. intros c'. simpl.
    exists (Some tt). f_equal. symmetry. apply traced_nil.
  - eexists. split; [by rewrite <- app_assoc|]. intros c'. simpl.
    exists None. f_equal. symmetry. apply traced_nil.
  - eexists. split; [reflexivity|]. intros c'. simpl. by exists None.
Qed.

Lemma attempts_run bs c :
  ∃ ps, array_map (attempt h) bs c
        = (traced (flat_map (rebuild_call_events h) bs) c, Normal ps)
        ∧ ∀ c', ∃ rs, settle ps c'
                      = (traced (flat_map (rebuild_settle_events h) bs) c', rs)
                      ∧ rejected rs = [].
Proof.
  revert c. induction bs as [|b bs IH]; intros c.
  - exists []. simpl. unfold ret. rewrite traced_nil. split; [done|].
    intros c'. exists []. by rewrite traced_nil.
  - destruct (attempt_run b c) as (p & Hp & Hsettle).
    destruct (IH (traced (rebuild_call_events h b) c)) as (ps & Hps & Hall).
    exists (p :: ps). split.
    + simpl. unfold bind at 1. rewrite Hp. unfold bind at 1. rewrite Hps.
      unfold ret. by rewrite traced_traced.
    + intros c'. destruct (Hsettle c') as [r Hr].
      destruct (Hall (traced (rebuild_settle_events h b) c')) as (rs & Hrs & Hnone).
      exists (Normal r :: rs). simpl. rewrite Hr, Hrs. by rewrite traced_traced.
Qed.

(** [rebuild] in closed form: the registry is untouched, and the trace
    gains the calls, the logged errors and the final report. *)
Lemma rebuild_run c :
  rebuild h c =
  (traced (flat_map (rebuild_call_events h) (builds c)
           ++ flat_map (rebuild_settle_events h) (builds c)
           ++ [LogDebug "rebuild" [("duration", LNum (elapsed h))]]) c,
   Normal tt).
Proof.
  destruct (attempts_run (builds c) c) as (ps & Hps & Hall).
  destruct (Hall (traced (flat_map (rebuild_call_events h) (builds c)) c))
    as (rs & Hrs & Hnone).
  unfold rebuild, time, log_debug.
  unfold bind at 1. unfold bind at 1. unfold bind at 1. unfold get at 1.
  unfold bind at 1. fold (attempt h). rewrite Hps.
  unfold bind at 1. unfold await, Promise_all. rewrite Hrs, Hnone. run_m.
  f_equal. unfold set_trace. simpl. by rewrite <- !app_assoc.
Qed.

End FanOut.

Section Invalidation.

Variable h : Host.

Lemma array_map_cons {A B} (f : A → M B) a l c :
  array_map f (a :: l) c =
  match f a c with
  | (c1, Normal b) =>
      match array_map f l c1 with
      | (c2, Normal bs) => (c2, Normal (b :: bs))
      | (c2, Abrupt e) => (c2, Abrupt e)
      end
  | (c1, Abrupt e) => (c1, Abrupt e)
  end.
Proof.
  simpl. unfold bind, ret. destruct (f a c) as [c1 [b|e]]; [|reflexivity].
  destruct (array_map f l c1) as [c2 [bs|e]]; reflexivity.
Qed.

Lemma disposal_run b c :
  disposal h b c =
  (traced [Dispose b] c,
   match rebuild_dispose h b with
   | Throws e => Abrupt e
   | _ => Normal (dispose_promise h b)
   end).
Proof.
  unfold disposal, dispose_promise. run_m.
  by destruct (rebuild_dispose h b).
Qed.

(** The loop over the handles calls [dispose] on each of them up to the
    first call that throws, whose error ends the loop. *)
Lemma disposals_run bs c :
  array_map (disposal h) bs c =
  (traced (map Dispose (called_until_throw h bs)) c,
   match first_throw h bs with
   | Some e => Abrupt e
   | None => Normal (map (dispose_promise h) bs)
   end).
Proof.
  revert c. induction bs as [|b bs IH]; intros c.
  - simpl. unfold ret. by rewrite traced_nil.
  - rewrite array_map_cons, disposal_run, IH. simpl.
    destruct (rebuild_dispose h b) as [|e|e] eqn:Hb; simpl;
      rewrite ?traced_traced; try done;
      by destruct (first_throw h bs).
Qed.

Lemma first_throw_None bs :
  first_throw h bs = None →
  called_until_throw h bs = bs ∧ Forall (fun b => ∀ e, rebuild_dispose h b ≠ Throws e) bs.
Proof.
  induction bs as [|b bs IH]; simpl; [done|].
  destruct (rebuild_dispose h b) as [|e|e] eqn:Hb; try done;
    intros [-> Hall]%IH; (split; [done|]); constructor; try done;
    intros e'; by rewrite Hb.
Qed.

Lemma first_throw_Some bs e :
  first_throw h bs = Some e → ∃ b, b ∈ bs ∧ rebuild_dispose h b = Throws e.
Proof.
  induction bs as [|b bs IH]; simpl; [done|].
  destruct (rebuild_dispose h b) as [|e'|e'] eqn:Hb.
  - intros (b' & ? & ?)%IH. exists b'. split; [by right|done].
  - intros [= ->]. exists b. split; [by left|done].
  - intros (b' & ? & ?)%IH. exists b'. split; [by right|done].
Qed.

Lemma first_throw_split bs e :
  first_throw h bs = Some e →
  ∃ before b after,
    bs = before ++ b :: after
    ∧ Forall (fun b' => ∀ e', rebuild_dispose h b' ≠ Throws e') before
    ∧ rebuild_dispose h b = Throws e
    ∧ called_until_throw h bs = before ++ [b].
Proof.
  induction bs as [|b bs IH]; simpl; [done|].
  destruct (rebuild_dispose h b) as [|e'|e'] eqn:Hb.
  - intros (before & b' & after & -> & Hall & Hb' & ->)%IH.
    exists (b :: before), b', after. repeat split; try done.
    constructor; [|done]. intros e'. by rewrite Hb.
  - intros [= ->]. exists [], b, bs. by repeat split.
  - intros (before & b' & after & -> & Hall & Hb' & ->)%IH.
    exists (b :: before), b', after. repeat split; try done.
    constructor; [|done]. intros e''. by rewrite Hb.
Qed.

Lemma called_until_throw_prefix bs : called_until_throw h bs `prefix_of` bs.
Proof.
  induction bs as [|b bs IH]; simpl; [done|].
  destruct (rebuild_dispose h b);
    [by apply prefix_cons | apply prefix_cons, prefix_nil | by apply prefix_cons].
Qed.

Lemma elem_of_dispose_rejections bs e :
  e ∈ dispose_rejections h bs ↔ ∃ b, b ∈ bs ∧ rebuild_dispose h b = Rejects e.
Proof.
  unfold dispose_rejections. rewrite list_elem_of_In, in_flat_map. split.
  - intros (b & Hin & He). exists b. split; [by apply list_elem_of_In|].
    destruct (rebuild_dispose h b) as [|e'|e']; simpl in He; try done.
    destruct He as [->|[]]. done.
  - intros (b & Hin & Hb). exists b. split; [by apply list_elem_of_In|].
    rewrite Hb. by left.
Qed.

(** Settling the promises of the disposals changes nothing; the rejected
    ones are those of the handles whose [dispose] rejects. *)
Lemma disposals_settle bs c :
  ∃ rs, settle (map (dispose_promise h) bs) c = (c, rs)
        ∧ rejected rs = dispose_rejections h bs.
Proof.
  induction bs as [|b bs (rs & Hrs & Hrej)]; [by exists []|].
  unfold dispose_rejections in *. simpl. unfold dispose_promise at 1.
  destruct (rebuild_dispose h b) as [|e|e]; unfold ret, throw; rewrite Hrs.
  - exists (Normal tt :: rs). by simpl.
  - exists (Normal tt :: rs). by simpl.
  - exists (Abrupt e :: rs). simpl. by rewrite Hrej.
Qed.

(** [invalidateBuildSet] in closed form. *)
Lemma invalidate_run c :
  invalidateBuildSet h c =
  match first_throw h (builds c) with
  | Some e => (traced (map Dispose (called_until_throw h (builds c))) c, Abrupt e)
  | None =>
      match dispose_rejections h (builds c) with
      | [] => (traced (map Dispose (builds c)) (invalidated c), Normal tt)
      | e :: es =>
          (traced (map Dispose (builds c)) c,
           Abrupt (nth (settles_first h mod length (e :: es)) (e :: es) e))
      end
  end.
Proof.
  unfold invalidateBuildSet. unfold bind at 1. unfold get at 1.
  unfold bind at 1. fold (disposal h). rewrite disposals_run.
  destruct (first_throw h (builds c)) as [e|] eqn:Hthrow; [done|].
  destruct (first_throw_None _ Hthrow) as [-> _].
  unfold bind at 1. unfold await, Promise_all.
  destruct (disposals_settle (builds c) (traced (map Dispose (builds c)) c))
    as (rs & -> & ->).
  by destruct (dispose_rejections h (builds c)).
Qed.

Lemma nth_mod_elem {A} (k : nat) (l : list A) (d : A) :
  l ≠ [] → nth (k mod length l) l d ∈ l.
Proof.
  intros Hne. apply list_elem_of_In, nth_In, Nat.mod_upper_bound.
  by destruct l.
Qed.

(** [invalidateBuildSet] when every disposal succeeds. *)
Lemma invalidate_fulfils c :
  Forall (fun b => rebuild_dispose h b = Fulfils) (builds c) →
  invalidateBuildSet h c = (traced (map Dispose (builds c)) (invalidated c), Normal tt).
Proof.
  intros Hall. rewrite invalidate_run. rewrite Forall_forall in Hall.
  destruct (first_throw h (builds c)) as [e|] eqn:Hthrow.
  { apply first_throw_Some in Hthrow as (b & Hin & Hb).
    specialize (Hall b Hin). congruence. }
  destruct (dispose_rejections h (builds c)) as [|e es] eqn:Hrej; [done|].
  assert (He : e ∈ dispose_rejections h (builds c)) by (rewrite Hrej; left).
  apply elem_of_dispose_rejections in He as (b & Hin & Hb).
  specialize (Hall b Hin). congruence.
Qed.

(** [invalidateBuildSet] when a disposal fails: the error reaches the
    caller and only the trace has changed. *)
Lemma invalidate_fails c :
  Exists (fun b => rebuild_dispose h b ≠ Fulfils) (builds c) →
  ∃ e done b,
    invalidateBuildSet h c = (traced (map Dispose done) c, Abrupt e)
    ∧ done `prefix_of` builds c
    ∧ b ∈ builds c ∧ failure (rebuild_dispose h b) = Some e.
Proof.
  intros Hex. rewrite invalidate_run.
  destruct (first_throw h (builds c)) as [e|] eqn:Hthrow.
  { destruct (first_throw_Some _ _ Hthrow) as (b & Hin & Hb).
    exists e, (called_until_throw h (builds c)), b.
    repeat split; [apply called_until_throw_prefix | done | by rewrite Hb]. }
  destruct (first_throw_None _ Hthrow) as [_ Hnothrow].
  destruct (dispose_rejections h (builds c)) as [|e es] eqn:Hrej.
  { apply Exists_exists in Hex as (b & Hin & Hb).
    rewrite Forall_forall in Hnothrow. specialize (Hnothrow b Hin).
    destruct (rebuild_dispose h b) as [|e|e] eqn:Hout;
      [done | by destruct (Hnothrow e) |].
    assert (He : e ∈ dispose_rejections h (builds c))
      by (apply elem_of_dispose_rejections; eauto).
    rewrite Hrej in He. by apply elem_of_nil in He. }
  assert (He : nth (settles_first h mod length (e :: es)) (e :: es) e
               ∈ dispose_rejections h (builds c))
    by (rewrite Hrej; by apply nth_mod_elem).
  apply elem_of_dispose_rejections in He as (b & Hin & Hb).
  eexists _, (builds c), b. repeat split; [done | done | by rewrite Hb].
Qed.

End Invalidation.

(** ** The output-path mapper *)

Section Destination.

Variable h : Host.

(** A source under the workspace root: the root is stripped, the
    extension replaced, and the result joined to the work directory. *)
Lemma destination_ts c rel :
  destination h c (workspaceRoot c +:+ rel +:+ ".ts")
  = path_join h [workDir c; rel +:+ ".js"].
Proof.
  unfold destination. rewrite replace_leading.
  change ".ts" with (String "." "ts"). by rewrite replace_dot_ts.
Qed.

Lemma destination_tsx c rel :
  destination h c (workspaceRoot c +:+ rel +:+ ".tsx")
  = path_join h [workDir c; rel +:+ ".js"].
Proof.
  unfold destination. rewrite replace_leading.
  change ".tsx" with (String "." "tsx"). by rewrite replace_dot_tsx.
Qed.

(** [compile] returns the destination of its argument whenever it
    returns. *)
Lemma compile_returns filename c :
  snd (compile h filename c) = Normal (destination h c filename)
  ∨ ∃ e, snd (compile h filename c) = Abrupt e.
Proof.
  rewrite compile_result.
  destruct (snd (startBuilding h filename c)) as [[]|e]; eauto.
Qed.

End Destination.

Lemma dot_matches_spec ch :
  JsString.dot_matches ch = true ↔ ch ≠ "010"%char ∧ ch ≠ "013"%char.
Proof.
  unfold JsString.dot_matches, JsString.is_line_terminator.
  destruct (Ascii.eqb_spec ch "010"), (Ascii.eqb_spec ch "013"); simpl;
    intuition congruence.
Qed.

(** C7. With [workspaceRoot = "/root"] and [workDir = "/out"] on a POSIX
    host, [compile("/root/src/a.ts")] yields ["/out/src/a.js"] and
    [compile("/root/src/b.tsx")] yields ["/out/src/b.js"].  In general the
    mapper strips the workspace root from a source under it, rewrites a
    final [.ts] or [.tsx] to [.js] and joins the result to [workDir];
    that is the value [compile] returns whenever it returns. *)
Theorem destination_maps_sources :
  (∀ (h : Host) (c : Compiler),
     path_join h = PosixPath.join → workspaceRoot c = "/root" → workDir c = "/out" →
     destination h c "/root/src/a.ts" = "/out/src/a.js"
     ∧ destination h c "/root/src/b.tsx" = "/out/src/b.js")
  ∧ snd (compile posix_host "/root/src/a.ts" session0) = Normal "/out/src/a.js"
  ∧ snd (compile posix_host "/root/src/b.tsx" session0) = Normal "/out/src/b.js"
  ∧ (∀ (h : Host) (c : Compiler) (filename : string),
       snd (compile h filename c) = Normal (destination h c filename)
       ∨ ∃ e, snd (compile h filename c) = Abrupt e)
  ∧ (∀ (h : Host) (c : Compiler) (rel : string),
       destination h c (workspaceRoot c +:+ rel +:+ ".ts")
       = path_join h [workDir c; rel +:+ ".js"]
       ∧ destination h c (workspaceRoot c +:+ rel +:+ ".tsx")
         = path_join h [workDir c; rel +:+ ".js"]).
Proof.
  split; [|split; [|split; [|split]]].
  - intros h c Hjoin Hroot Hdir. unfold destination. rewrite Hjoin, Hroot, Hdir.
    split; reflexivity.
  - vm_compute. reflexivity.
  - vm_compute. reflexivity.
  - intros h c filename. apply compile_returns.
  - intros h c rel. split; [apply destination_ts | apply destination_tsx].
Qed.

Lemma destination_maps_sources_witness :
  destination posix_host session0 "/root/src/a.ts" = "/out/src/a.js"
  ∧ destination posix_host session0 "/root/src/b.tsx" = "/out/src/b.js".
Proof.
  apply (proj1 destination_maps_sources posix_host session0); reflexivity.
Defined.

(** C9, as the code has it.  The pattern's dot matches every character
    except a line terminator.  When what is left of a file name, once the
    first occurrence of the workspace root is removed, ends with such a
    character followed by [ts] or [tsx], those three or four characters
    are replaced by [.js], whether or not the character is a literal dot;
    so a path ending in [fonts] is mapped to one ending in [fo.js]. *)
Theorem destination_rewrites_any_dot_class_character :
  ∀ (h : Host) (c : Compiler) (filename rest : string) (ch : ascii),
    ch ≠ "010"%char → ch ≠ "013"%char →
    JsString.replace (workspaceRoot c) "" filename = rest +:+ String ch "ts"
    ∨ JsString.replace (workspaceRoot c) "" filename = rest +:+ String ch "tsx" →
    destination h c filename = path_join h [workDir c; rest +:+ ".js"].
Proof.
  intros h c filename rest ch Hlf Hcr Htail.
  assert (JsString.dot_matches ch = true) by (by apply dot_matches_spec).
  unfold destination.
  destruct Htail as [-> | ->]; [by rewrite replace_dot_ts | by rewrite replace_dot_tsx].
Qed.

Lemma destination_rewrites_fonts :
  destination posix_host session0 "/root/assets/fonts" = "/out/assets/fo.js".
Proof.
  apply (destination_rewrites_any_dot_class_character
           posix_host session0 "/root/assets/fonts" "/assets/fo" "n");
    [discriminate | discriminate | left; reflexivity].
Defined.

(** The claim C9 as worded fails for a line terminator: the final three
    characters of [/root/a<LF>ts] are left as they are. *)
Lemma destination_keeps_line_terminator_ts :
  destination posix_host session0 ("/root/a" +:+ String "010" "ts")
  = "/out/a" +:+ String "010" "ts"
  ∧ destination posix_host session0 ("/root/a" +:+ String "010" "ts") ≠ "/out/a.js".
Proof. split; [reflexivity | discriminate]. Qed.

(** ** [startBuilding], case by case *)

Section Cases.

Variable h : Host.

Lemma resolves_to_functional filename m cfg m' cfg' :
  resolves_to h filename m cfg → resolves_to h filename m' cfg' →
  m = m' ∧ cfg = cfg'.
Proof.
  intros (Hf & _ & -> & _) (Hf' & _ & -> & _). rewrite Hf in Hf'.
  by injection Hf' as ->.
Qed.

Lemma resolves_not_abrupt filename m cfg c e :
  resolves_to h filename m cfg → snd (getTSConfig h filename c) ≠ Abrupt e.
Proof. intros Hres. by rewrite (getTSConfig_resolves h filename m cfg c Hres). Qed.

Lemma startBuilding_known filename c :
  truthy_at (fileMap c) filename = true → startBuilding h filename c = (c, Normal tt).
Proof.
  intros Hfile. pose proof (startBuilding_cases h filename c) as Hends.
  destruct (startBuilding h filename c) as [c' r]. simpl in Hends.
  inversion Hends; subst; congruence.
Qed.

Lemma startBuilding_unresolved filename c e :
  truthy_at (fileMap c) filename = false → snd (getTSConfig h filename c) = Abrupt e →
  startBuilding h filename c = (traced [FindConfigFile filename] c, Abrupt e).
Proof.
  intros Hfile Hcfg. pose proof (startBuilding_cases h filename c) as Hends.
  destruct (startBuilding h filename c) as [c' r]. simpl in Hends.
  inversion Hends; subst; try congruence;
    by match goal with
       | H : resolves_to _ _ _ _ |- _ => destruct (resolves_not_abrupt _ _ _ c e H)
       end.
Qed.

Lemma startBuilding_live filename c m cfg :
  truthy_at (fileMap c) filename = false → resolves_to h filename m cfg →
  truthy_at (tsConfigMap c) m = true →
  startBuilding h filename c = (traced [FindConfigFile filename] c, Normal tt).
Proof.
  intros Hfile Hres Hlive. pose proof (startBuilding_cases h filename c) as Hends.
  destruct (startBuilding h filename c) as [c' r]. simpl in Hends.
  inversion Hends; subst; try congruence;
    try (by match goal with
            | H : snd (getTSConfig _ _ _) = Abrupt ?e |- _ =>
                destruct (resolves_not_abrupt _ _ _ c e Hres H)
            end);
    match goal with
    | H : resolves_to _ _ _ _ |- _ =>
        destruct (resolves_to_functional _ _ _ _ _ Hres H); subst; congruence
    end.
Qed.

Lemma startBuilding_failed filename c m cfg e :
  truthy_at (fileMap c) filename = false → resolves_to h filename m cfg →
  truthy_at (tsConfigMap c) m = false →
  failure (service_build h (buildOptions c (entryNames h cfg) m)) = Some e →
  startBuilding h filename c
  = (traced [FindConfigFile filename;
             ServiceBuild (buildOptions c (entryNames h cfg) m);
             LogError e] c,
     Normal tt).
Proof.
  intros Hfile Hres Hlive Hfail. pose proof (startBuilding_cases h filename c) as Hends.
  destruct (startBuilding h filename c) as [c' r]. simpl in Hends.
  inversion Hends; subst; try congruence;
    try (by match goal with
            | H : snd (getTSConfig _ _ _) = Abrupt ?e |- _ =>
                destruct (resolves_not_abrupt _ _ _ c e Hres H)
            end);
    match goal with
    | H : resolves_to _ _ _ _ |- _ =>
        destruct (resolves_to_functional _ _ _ _ _ Hres H); subst; try congruence
    end.
  match goal with H : service_build _ _ = Fulfils |- _ => rewrite H in Hfail end.
  discriminate.
Qed.

Lemma startBuilding_started filename c m cfg :
  truthy_at (fileMap c) filename = false → resolves_to h filename m cfg →
  truthy_at (tsConfigMap c) m = false →
  service_build h (buildOptions c (entryNames h cfg) m) = Fulfils →
  snd (startBuilding h filename c) = Normal tt
  ∧ started_from c filename m (entryNames h cfg) (fst (startBuilding h filename c)).
Proof.
  intros Hfile Hres Hlive Hok. pose proof (startBuilding_cases h filename c) as Hends.
  destruct (startBuilding h filename c) as [c' r]. simpl in *.
  inversion Hends; subst; try congruence;
    try (by match goal with
            | H : snd (getTSConfig _ _ _) = Abrupt ?e |- _ =>
                destruct (resolves_not_abrupt _ _ _ c e Hres H)
            end);
    match goal with
    | H : resolves_to _ _ _ _ |- _ =>
        destruct (resolves_to_functional _ _ _ _ _ Hres H); subst; try congruence
    end.
  - match goal with H : failure _ = Some _ |- _ => rewrite Hok in H end. discriminate.
  - done.
Qed.

End Cases.

(** ** Reading a trace *)

Lemma build_calls_app t t' : build_calls (t ++ t') = build_calls t ++ build_calls t'.
Proof. induction t as [|[] t IH]; simpl; by rewrite ?IH. Qed.

Lemma rebuild_calls_app t t' : rebuild_calls (t ++ t') = rebuild_calls t ++ rebuild_calls t'.
Proof. induction t as [|[] t IH]; simpl; by rewrite ?IH. Qed.

Lemma dispose_calls_app t t' : dispose_calls (t ++ t') = dispose_calls t ++ dispose_calls t'.
Proof. induction t as [|[] t IH]; simpl; by rewrite ?IH. Qed.

Lemma resolutions_app t t' : resolutions (t ++ t') = resolutions t ++ resolutions t'.
Proof. induction t as [|[] t IH]; simpl; by rewrite ?IH. Qed.

Lemma logged_errors_app t t' : logged_errors (t ++ t') = logged_errors t ++ logged_errors t'.
Proof. induction t as [|[] t IH]; simpl; by rewrite ?IH. Qed.

Lemma dispose_calls_map bs : dispose_calls (map Dispose bs) = bs.
Proof. induction bs as [|b bs IH]; simpl; by rewrite ?IH. Qed.

Lemma starts_for_app m t t' : starts_for m (t ++ t') = starts_for m t + starts_for m t'.
Proof. unfold starts_for. by rewrite build_calls_app, filter_app, length_app. Qed.

(** ** Failures of resolution and of the start *)

Section Failures.

Variable h : Host.

(** A [compile] that reaches the start of a project calls
    [service.build] once, whatever comes of it. *)
Lemma compile_attempts_start filename m cfg c :
  truthy_at (fileMap c) filename = false → resolves_to h filename m cfg →
  truthy_at (tsConfigMap c) m = false →
  build_calls (trace (fst (compile h filename c)))
  = build_calls (trace c) ++ [buildOptions c (entryNames h cfg) m].
Proof.
  intros Hfile Hres Hlive. rewrite compile_state.
  destruct (failure (service_build h (buildOptions c (entryNames h cfg) m)))
    as [e|] eqn:Hbuild.
  - rewrite (startBuilding_failed h filename c m cfg e) by done. simpl.
    by rewrite build_calls_app.
  - assert (service_build h (buildOptions c (entryNames h cfg) m) = Fulfils) as Hok
        by (by destruct (service_build h _)).
    destruct (startBuilding_started h filename c m cfg Hfile Hres Hlive Hok)
      as (_ & _ & _ & _ & _ & _ & _ & _ & ->).
    by rewrite build_calls_app.
Qed.

End Failures.

(** C5. When [compile(file)] resolves its configuration (the read
    [fileMap[file]] gave nothing, so that the resolution ran) and
    [service.build] is called (the read [tsConfigMap[m]] gave nothing) but
    fails, [compile] still returns the output path of [file]; the error is
    logged and the registry is as it was: the file and the manifest remain
    unregistered, so that a later [compile] of a file of that project
    calls [service.build] again. *)
Theorem compile_survives_failed_start :
  ∀ (h : Host) (filename m : string) (cfg : ParsedCommandLine) (e : exn) (c : Compiler),
    truthy_at (fileMap c) filename = false →
    resolves_to h filename m cfg →
    truthy_at (tsConfigMap c) m = false →
    failure (service_build h (buildOptions c (entryNames h cfg) m)) = Some e →
    ∃ c',
      compile h filename c = (c', Normal (destination h c filename))
      ∧ registry c' = registry c
      ∧ allocated c' = allocated c
      ∧ trace c' = trace c ++ [FindConfigFile filename;
                               ServiceBuild (buildOptions c (entryNames h cfg) m);
                               LogError e]
      ∧ ∀ (h' : Host) (filename' : string) (cfg' : ParsedCommandLine),
          truthy_at (fileMap c') filename' = false →
          resolves_to h' filename' m cfg' →
          build_calls (trace (fst (compile h' filename' c')))
          = build_calls (trace c') ++ [buildOptions c' (entryNames h' cfg') m].
Proof.
  intros h filename m cfg e c Hfile Hres Hlive Hfail.
  pose proof (compile_state h filename c) as Hst.
  pose proof (compile_result h filename c) as Hr.
  rewrite (startBuilding_failed h filename c m cfg e) in Hst, Hr by done.
  simpl in Hst, Hr.
  destruct (compile h filename c) as [c' r]. simpl in Hst, Hr. subst c' r.
  eexists. split; [reflexivity|]. repeat split.
  intros h' filename' cfg' Hfile' Hres'.
  by apply compile_attempts_start.
Qed.

Lemma compile_survives_failed_start_witness :
  ∃ c',
    compile failing_host "/root/src/a.ts" session0
    = (c', Normal (destination failing_host session0 "/root/src/a.ts"))
    ∧ registry c' = registry session0.
Proof.
  destruct (compile_survives_failed_start failing_host "/root/src/a.ts"
              "/root/tsconfig.json"
              {| errors := []; fileNames := ["/root/src/a.ts"; "/root/src/b.tsx"] |}
              (JsError "build failed") session0)
    as (c' & Hrun & Hreg & _).
  - reflexivity.
  - by repeat split.
  - reflexivity.
  - reflexivity.
  - exists c'. by split.
Defined.

(** C6. The claim fails for a file whose name is that of a property every
    object inherits: [constructor] is not in [fileMap] and no manifest is
    found near it, yet [compile("constructor")] on a fresh session returns
    the output path [/out/constructor]; the resolution is not run, nothing
    is thrown and the state is as it was.  The read [fileMap[filename]] of
    line 97 finds [Object.prototype.constructor]. *)
Theorem compile_of_inherited_name_skips_resolution :
  fileMap session0 !! "constructor" = None
  ∧ config_not_found posix_host "constructor"
  ∧ (∃ e, snd (getTSConfig posix_host "constructor" session0) = Abrupt e)
  ∧ compile posix_host "constructor" session0 = (session0, Normal "/out/constructor").
Proof.
  split; [reflexivity|]. split; [by left|]. split; [|reflexivity].
  by eexists.
Qed.

(** X15. When the read [fileMap[file]] gives nothing, if no manifest is
    found or the manifest has diagnostics, [compile(file)] fails with the
    very error the resolution raised, no handle is created,
    [service.build] is not called and the registry is as it was. *)
Theorem compile_propagates_resolution_failure :
  ∀ (h : Host) (filename : string) (c : Compiler),
    truthy_at (fileMap c) filename = false →
    config_not_found h filename ∨ config_invalid h filename →
    ∃ e,
      snd (getTSConfig h filename c) = Abrupt e
      ∧ snd (compile h filename c) = Abrupt e
      ∧ registry (fst (compile h filename c)) = registry c
      ∧ allocated (fst (compile h filename c)) = allocated c
      ∧ build_calls (trace (fst (compile h filename c))) = build_calls (trace c)
      ∧ (config_not_found h filename →
         e = JsError ("couldnt find tsconfig.json near " +:+ filename))
      ∧ (∀ m, findConfigFile h filename = Some m → m ≠ "" →
         e = JsError (JsString.join (String "010" "") (errors (parseConfigFile h m)))).
Proof.
  intros h filename c Hfile Hfails.
  destruct (getTSConfig_fails h filename c Hfails) as [e He].
  exists e. rewrite compile_state, compile_result.
  rewrite (startBuilding_unresolved h filename c e Hfile He). simpl.
  repeat split; try done.
  - by rewrite build_calls_app, app_nil_r.
  - revert He. unfold getTSConfig. run_m.
    intros He [Hnone|Hempty]; [rewrite Hnone in He | rewrite Hempty in He];
      simpl in He; congruence.
  - intros m Hfind Hm. revert He. unfold getTSConfig. run_m.
    rewrite Hfind. apply String.eqb_neq in Hm. rewrite Hm.
    destruct (errors (parseConfigFile h m)); simpl; congruence.
Qed.

Lemma compile_propagates_resolution_failure_witness :
  ∃ e,
    snd (compile posix_host "/elsewhere/c.ts" session0) = Abrupt e
    ∧ registry (fst (compile posix_host "/elsewhere/c.ts" session0)) = registry session0.
Proof.
  destruct (compile_propagates_resolution_failure posix_host "/elsewhere/c.ts" session0)
    as (e & _ & Hres & Hreg & _).
  - reflexivity.
  - left. left. reflexivity.
  - exists e. by split.
Defined.

(** ** Files that stay unregistered *)

Lemma truthy_at_insert_all_other {V} (keys : list string) (v : V) (m : gmap string V) k :
  k ∉ keys → truthy_at (insert_all keys v m) k = truthy_at m k.
Proof. intros Hnin. unfold truthy_at. by rewrite lookup_insert_all_other. Qed.

Lemma truthy_at_insert_all_elem {V} (keys : list string) (v : V) (m : gmap string V) k :
  k ∈ keys → truthy_at (insert_all keys v m) k = true.
Proof. intros Hin. unfold truthy_at. by rewrite lookup_insert_all_elem. Qed.

(** A [compile] of a file whose read [fileMap[file]] gives nothing runs
    the resolution, once. *)
Lemma compile_resolves h filename c :
  truthy_at (fileMap c) filename = false →
  resolutions (trace (fst (compile h filename c))) = resolutions (trace c) ++ [filename].
Proof.
  intros Hfile. rewrite compile_state.
  destruct (startBuilding_cases h filename c)
    as [?|e ? ?|m cfg ? ? ?|m cfg e ? ? ? ?|m cfg c' ? ? ? ? Hst];
    try congruence;
    try (destruct Hst as (_ & _ & _ & _ & _ & _ & _ & ->));
    simpl; by rewrite resolutions_app.
Qed.

(** A [compile] of a file whose read [fileMap[file]] gives something does
    nothing. *)
Lemma compile_known h filename c :
  truthy_at (fileMap c) filename = true →
  compile h filename c = (c, Normal (destination h c filename)).
Proof.
  intros Hfile. pose proof (compile_state h filename c) as Hst.
  pose proof (compile_result h filename c) as Hr.
  rewrite (startBuilding_known h filename c Hfile) in Hst, Hr. simpl in Hst, Hr.
  destruct (compile h filename c) as [c' r]. simpl in *. by subst.
Qed.

Section Unregistered.

Variables (h : Host) (filename m : string) (cfg : ParsedCommandLine).
Hypothesis Hres : resolves_to h filename m cfg.

Local Abbreviation left_out := (unregistered h filename m cfg).

Lemma left_out_compile c :
  left_out c →
  left_out (fst (compile h filename c))
  ∧ snd (compile h filename c) = Normal (destination h c filename)
  ∧ (truthy_at (tsConfigMap c) m = true →
     registry (fst (compile h filename c)) = registry c
     ∧ build_calls (trace (fst (compile h filename c))) = build_calls (trace c)).
Proof.
  intros (Hfile & Hgroup & Hout).
  rewrite compile_state, compile_result.
  destruct (truthy_at (tsConfigMap c) m) eqn:Hlive.
  { rewrite (startBuilding_live h filename c m cfg) by done. simpl.
    repeat split; try done.
    - by right.
    - by rewrite build_calls_app, app_nil_r. }
  destruct Hout as [Hout|[=]].
  destruct (failure (service_build h (buildOptions c (entryNames h cfg) m)))
    as [e|] eqn:Hbuild.
  { rewrite (startBuilding_failed h filename c m cfg e) by done. simpl.
    repeat split; try done. by left. }
  assert (service_build h (buildOptions c (entryNames h cfg) m) = Fulfils) as Hok
      by (by destruct (service_build h _)).
  destruct (startBuilding_started h filename c m cfg Hfile Hres Hlive Hok)
    as (-> & _ & _ & _ & HfileMap & _ & HgroupMap & _ & Htrace).
  split; [|done].
  repeat split; [ | | by left].
  - rewrite HfileMap. by rewrite truthy_at_insert_all_other.
  - rewrite HgroupMap. by rewrite lookup_insert_all_other.
Qed.

Lemma left_out_iter n c :
  left_out c →
  let c' := Nat.iter n (fun c => fst (compile h filename c)) c in
  left_out c'
  ∧ resolutions (trace c') = resolutions (trace c) ++ replicate n filename
  ∧ (truthy_at (tsConfigMap c) m = true →
     registry c' = registry c ∧ build_calls (trace c') = build_calls (trace c)).
Proof.
  intros Hc. induction n as [|n (IHout & IHres & IHlive)]; simpl.
  - split; [done|]. split; [|done]. symmetry. apply app_nil_r.
  - destruct (left_out_compile _ IHout) as (Hout & _ & Hlive').
    split; [done|]. split.
    + rewrite compile_resolves by apply IHout.
      rewrite IHres, <- app_assoc. f_equal.
      change (filename :: replicate n filename) with (replicate (S n) filename).
      by rewrite replicate_S_end.
    + intros Hlive. destruct (IHlive Hlive) as [Hreg Hcalls].
      assert (truthy_at (tsConfigMap
                (Nat.iter n (fun c => fst (compile h filename c)) c)) m = true)
        as Hlive_n.
      { unfold registry in Hreg. by injection Hreg as _ _ -> _. }
      destruct (Hlive' Hlive_n) as [-> ->]. done.
Qed.

End Unregistered.

Lemma fileGroup_unknown h filename c :
  groupMap c !! filename = None →
  ∃ e, fileGroup h filename c = (c, Abrupt e).
Proof.
  intros Hgroup. unfold fileGroup. run_m. rewrite Hgroup.
  destruct (inherited filename); by eexists.
Qed.




(** ** Compilation groups *)

Lemma filter_all (P : string → Prop) `{!∀ x, Decision (P x)} (l : list string) :
  Forall P l → filter P l = l.
Proof.
  induction 1 as [|x l Hx _ IH]; [done|].
  by rewrite filter_cons_True, IH.
Qed.

Lemma elem_of_first_occurrences (G : list string) g :
  g ∈ first_occurrences G ↔ g ∈ G.
Proof.
  induction G as [|x G IH]; [done|]. simpl.
  rewrite !elem_of_cons, list_elem_of_filter, IH.
  destruct (decide (g = x)); tauto.
Qed.

Lemma first_occurrences_NoDup (G : list string) :
  NoDup G → first_occurrences G = G.
Proof.
  induction 1 as [|x G Hx _ IH]; [done|]. simpl. rewrite IH.
  f_equal. apply filter_all, Forall_forall. by intros y Hy ->.
Qed.

Section FileGroup.

Variable d : string → string.

Local Abbreviation entry := (fun g : string => (g, d g)).

Lemma define_property_present (acc : list string) k :
  k ∈ acc → define_property (map entry acc) k (d k) = map entry acc.
Proof.
  induction acc as [|a acc IH]; intros Hin; [by apply elem_of_nil in Hin|].
  simpl. destruct (String.eqb_spec a k) as [->|Hne]; [done|].
  apply elem_of_cons in Hin as [->|Hin]; [done|]. by rewrite IH.
Qed.

Lemma define_property_absent (acc : list string) k :
  k ∉ acc → define_property (map entry acc) k (d k) = map entry (acc ++ [k]).
Proof.
  induction acc as [|a acc IH]; intros Hnin; [done|].
  simpl. apply not_elem_of_cons in Hnin as [Hne Hnin].
  destruct (String.eqb_spec a k) as [->|_]; [done|]. by rewrite IH.
Qed.

Lemma fromEntries_from (acc G : list string) :
  fold_left (fun o kv => define_property o (fst kv) (snd kv)) (map entry G)
    (map entry acc)
  = map entry (acc ++ filter (fun g => g ∉ acc) (first_occurrences G)).
Proof.
  revert acc. induction G as [|x G IH]; intros acc.
  - simpl. by rewrite app_nil_r.
  - simpl. destruct (decide (x ∈ acc)) as [Hin|Hnin].
    + rewrite define_property_present by done. rewrite IH.
      rewrite filter_cons_False by (by intros []).
      rewrite list_filter_filter_l; [done|]. intros y Hy ->. done.
    + rewrite define_property_absent by done. rewrite IH.
      rewrite filter_cons_True by done.
      rewrite <- app_assoc. simpl. do 3 f_equal.
      rewrite list_filter_filter. apply list_filter_iff.
      intros y. rewrite elem_of_app, list_elem_of_singleton. tauto.
Qed.


(** [Object.fromEntries] keeps one property per key, at the place of the
    key's first occurrence. *)
Lemma fromEntries_first_occurrences (G : list string) :
  fromEntries (map entry G) = map entry (first_occurrences G).
Proof.
  unfold fromEntries. pose proof (fromEntries_from [] G) as Hfrom.
  simpl in Hfrom. rewrite Hfrom.
  f_equal. apply filter_all, Forall_forall. intros x _. apply not_elem_of_nil.
Qed.



Lemma get_property_entry (L : list string) g :
  g ∈ L → get_property (map entry L) g = Some (d g).
Proof.
  induction L as [|x L IH]; intros Hin; [by apply elem_of_nil in Hin|].
  simpl. destruct (String.eqb_spec x g) as [->|Hne]; [done|].
  apply elem_of_cons in Hin as [->|Hin]; [done|]. by apply IH.
Qed.

End FileGroup.

(** C8. When [groupMap[file]] exists, [fileGroup(file)] returns an object
    that has, for every file [g] of the group and for no other key, the
    property [g] with value [destination(g)]; the properties come in the
    order of the group (a file listed twice has one property, at the place
    of its first occurrence). *)
Theorem fileGroup_maps_the_group :
  ∀ (h : Host) (c : Compiler) (filename : string) (G : list string),
    groupMap c !! filename = Some G →
    ∃ o,
      fileGroup h filename c = (c, Normal o)
      ∧ o = map (fun g => (g, destination h c g)) (first_occurrences G)
      ∧ (∀ g, g ∈ G → get_property o g = Some (destination h c g))
      ∧ (∀ g v, (g, v) ∈ o → g ∈ G ∧ v = destination h c g)
      ∧ (NoDup G → o = map (fun g => (g, destination h c g)) G).
Proof.
  intros h c filename G Hgroup.
  exists (map (fun g => (g, destination h c g)) (first_occurrences G)).
  split; [|split; [done|split; [|split]]].
  - unfold fileGroup. run_m. rewrite Hgroup.
    by rewrite (fromEntries_first_occurrences (destination h c)).
  - intros g Hin. apply (get_property_entry (destination h c)).
    by apply elem_of_first_occurrences.
  - intros g v Hin.
    apply list_elem_of_In, in_map_iff in Hin as (g' & [= <- <-] & Hin).
    split; [|done]. apply list_elem_of_In in Hin.
    exact (proj1 (elem_of_first_occurrences G g') Hin).
  - intros Hnodup. by rewrite first_occurrences_NoDup.
Qed.

Lemma fileGroup_maps_the_group_witness :
  ∃ o,
    fileGroup posix_host "/root/src/b.tsx"
      (fst (compile posix_host "/root/src/a.ts" session0))
    = (fst (compile posix_host "/root/src/a.ts" session0), Normal o)
    ∧ o = [("/root/src/a.ts", "/out/src/a.js"); ("/root/src/b.tsx", "/out/src/b.js")].
Proof.
  destruct (fileGroup_maps_the_group posix_host
              (fst (compile posix_host "/root/src/a.ts" session0))
              "/root/src/b.tsx" ["/root/src/a.ts"; "/root/src/b.tsx"])
    as (o & Hrun & -> & _).
  - vm_compute. reflexivity.
  - eexists. split; [exact Hrun|]. vm_compute. reflexivity.
Defined.

(** ** The fan-out of [rebuild] *)

Section RebuildTrace.

Variable h : Host.

Lemma rebuild_calls_call_events bs :
  rebuild_calls (flat_map (rebuild_call_events h) bs) = bs.
Proof.
  induction bs as [|b bs IH]; [done|].
  cbn [flat_map]. rewrite rebuild_calls_app, IH. unfold rebuild_call_events.
  by destruct (build_rebuild h b).
Qed.

Lemma rebuild_calls_settle_events bs :
  rebuild_calls (flat_map (rebuild_settle_events h) bs) = [].
Proof.
  induction bs as [|b bs IH]; [done|].
  cbn [flat_map]. rewrite rebuild_calls_app, IH. unfold rebuild_settle_events.
  by destruct (build_rebuild h b).
Qed.

Lemma other_calls_rebuild_events bs :
  build_calls (flat_map (rebuild_call_events h) bs) = []
  ∧ build_calls (flat_map (rebuild_settle_events h) bs) = []
  ∧ dispose_calls (flat_map (rebuild_call_events h) bs) = []
  ∧ dispose_calls (flat_map (rebuild_settle_events h) bs) = [].
Proof.
  induction bs as [|b bs (IH1 & IH2 & IH3 & IH4)]; [done|].
  cbn [flat_map]. rewrite !build_calls_app, !dispose_calls_app, IH1, IH2, IH3, IH4.
  unfold rebuild_call_events, rebuild_settle_events.
  by destruct (build_rebuild h b).
Qed.

(** Every failure is logged once, and nothing else is. *)
Lemma logged_errors_rebuild_events bs :
  logged_errors (flat_map (rebuild_call_events h) bs)
  ++ logged_errors (flat_map (rebuild_settle_events h) bs)
  ≡ₚ omap (fun b => failure (build_rebuild h b)) bs.
Proof.
  induction bs as [|b bs IH]; [done|].
  cbn [flat_map omap list_omap]. rewrite !logged_errors_app.
  unfold rebuild_call_events, rebuild_settle_events.
  destruct (build_rebuild h b) as [|e|e]; simpl.
  - exact IH.
  - by constructor.
  - rewrite <- Permutation_middle. by constructor.
Qed.

End RebuildTrace.

(** C4. [rebuild()] calls [rebuild] on every live handle, whichever of
    these calls fail; every failure is logged, and nothing else comes of
    it: [rebuild()] returns normally and the registry is as it was. *)
Theorem rebuild_isolates_failures :
  ∀ (h : Host) (c : Compiler),
    ∃ c',
      rebuild h c = (c', Normal tt)
      ∧ registry c' = registry c
      ∧ allocated c' = allocated c
      ∧ rebuild_calls (trace c') = rebuild_calls (trace c) ++ builds c
      ∧ logged_errors (trace c')
        ≡ₚ logged_errors (trace c) ++ omap (fun b => failure (build_rebuild h b)) (builds c)
      ∧ build_calls (trace c') = build_calls (trace c)
      ∧ dispose_calls (trace c') = dispose_calls (trace c).
Proof.
  intros h c. eexists. split; [apply rebuild_run|].
  destruct (other_calls_rebuild_events h (builds c)) as (Hb1 & Hb2 & Hd1 & Hd2).
  simpl. repeat split.
  - rewrite !rebuild_calls_app, rebuild_calls_call_events, rebuild_calls_settle_events.
    simpl. by rewrite app_nil_r.
  - rewrite !logged_errors_app. simpl. rewrite app_nil_r.
    by rewrite logged_errors_rebuild_events.
  - rewrite !build_calls_app, Hb1, Hb2. simpl. by rewrite app_nil_r.
  - rewrite !dispose_calls_app, Hd1, Hd2. simpl. by rewrite app_nil_r.
Qed.

Example rebuild_three_live :
  snd (rebuild three_projects_host three_live) = Normal tt
  ∧ map build_id (rebuild_calls (trace (fst (rebuild three_projects_host three_live))))
    = [0; 1; 2]
  ∧ logged_errors (trace (fst (rebuild three_projects_host three_live)))
    = [JsError "rebuild failed"].
Proof. vm_compute. done. Qed.

(** ** Invalidation *)




(** ** One process per project *)

Section OneProcess.

Variable m : string.

(** Once the manifest [m] has a process, a [compile] starts none for it
    and keeps the one it has. *)
Lemma compile_keeps_live h filename c b :
  tsConfigMap c !! m = Some b →
  tsConfigMap (fst (compile h filename c)) !! m = Some b
  ∧ starts_for m (trace (fst (compile h filename c))) = starts_for m (trace c)
  ∧ live_for m (fst (compile h filename c)) = live_for m c.
Proof.
  intros Hlive. rewrite compile_state.
  destruct (startBuilding_cases h filename c)
    as [?|e ? ?|m' cfg ? ? ?|m' cfg e ? ? Hnone ?|m' cfg c' ? ? Hnone ? Hst].
  - done.
  - simpl. split; [done|]. split; [|done]. by rewrite starts_for_app.
  - simpl. split; [done|]. split; [|done]. by rewrite starts_for_app.
  - assert (m' ≠ m) as Hne
        by (intros ->; by rewrite (truthy_at_own _ _ _ Hlive) in Hnone).
    simpl. split; [done|]. split; [|done].
    rewrite starts_for_app. unfold starts_for at 2. simpl.
    rewrite filter_cons_False by done. simpl. lia.
  - assert (m' ≠ m) as Hne
        by (intros ->; by rewrite (truthy_at_own _ _ _ Hlive) in Hnone).
    destruct Hst as (_ & _ & Hbuilds & _ & Hts & _ & _ & Htrace).
    split; [|split].
    + rewrite Hts. by rewrite lookup_insert_ne.
    + rewrite Htrace, starts_for_app. unfold starts_for at 2. simpl.
      rewrite filter_cons_False by done. simpl. lia.
    + unfold live_for. rewrite Hbuilds, filter_app, length_app.
      rewrite filter_cons_False by done. simpl. lia.
Qed.

Lemma compiles_keep_live calls c b :
  tsConfigMap c !! m = Some b →
  tsConfigMap (run (compiles calls) c) !! m = Some b
  ∧ starts_for m (trace (run (compiles calls) c)) = starts_for m (trace c)
  ∧ live_for m (run (compiles calls) c) = live_for m c.
Proof.
  revert c. induction calls as [|[h filename] calls IH]; intros c Hlive; [done|].
  simpl. destruct (compile_keeps_live h filename c b Hlive) as (Hts & Hstarts & Hlives).
  destruct (IH _ Hts) as (? & -> & ->). done.
Qed.

End OneProcess.

(** C3, as the code has it.  In a sequence of [compile] calls, each
    awaited before the next, without [invalidateBuildSet]: when a call
    finds nothing at [fileMap[file]] nor, for the manifest [m] of the file,
    at [tsConfigMap[m]], and its [service.build] succeeds, then that call
    and all the calls after it, on the same file, on other files of [m] or
    on any file, make exactly one [service.build] call for [m] in all and
    leave exactly one more live process, registered for [m]. *)
Theorem compile_starts_project_once :
  ∀ (h : Host) (filename m : string) (cfg : ParsedCommandLine) (c : Compiler)
    (later : list (Host * string)),
    truthy_at (fileMap c) filename = false →
    resolves_to h filename m cfg →
    truthy_at (tsConfigMap c) m = false →
    service_build h (buildOptions c (entryNames h cfg) m) = Fulfils →
    let c' := run (compiles ((h, filename) :: later)) c in
    starts_for m (trace c') = S (starts_for m (trace c))
    ∧ live_for m c' = S (live_for m c)
    ∧ tsConfigMap c' !! m = Some (started_build c m (entryNames h cfg)).
Proof.
  intros h filename m cfg c later Hfile Hres Hnone Hok c'.
  destruct (startBuilding_started h filename c m cfg Hfile Hres Hnone Hok)
    as (_ & _ & _ & Hbuilds & _ & Hts & _ & _ & Htrace).
  rewrite <- compile_state in Hbuilds, Hts, Htrace.
  destruct (compiles_keep_live m later (fst (compile h filename c))
              (started_build c m (entryNames h cfg))) as (Hlive & Hstarts & Hlives).
  { rewrite Hts. apply lookup_insert_eq. }
  subst c'. simpl. simpl in Hlive, Hstarts, Hlives.
  rewrite Hlive, Hstarts, Hlives. repeat split.
  - rewrite Htrace, starts_for_app. unfold starts_for at 2. simpl.
    rewrite filter_cons_True by done. simpl. lia.
  - unfold live_for. rewrite Hbuilds, filter_app, length_app.
    rewrite filter_cons_True by done. simpl. lia.
Qed.

Lemma compile_starts_project_once_witness :
  starts_for "/root/tsconfig.json"
    (trace (run (compiles [(posix_host, "/root/src/a.ts"); (posix_host, "/root/src/a.ts");
                           (posix_host, "/root/src/b.tsx"); (posix_host, "/root/src/new.ts")])
              session0)) = 1
  ∧ live_for "/root/tsconfig.json"
      (run (compiles [(posix_host, "/root/src/a.ts"); (posix_host, "/root/src/a.ts");
                      (posix_host, "/root/src/b.tsx"); (posix_host, "/root/src/new.ts")])
         session0) = 1.
Proof.
  destruct (compile_starts_project_once posix_host "/root/src/a.ts" "/root/tsconfig.json"
              {| errors := []; fileNames := ["/root/src/a.ts"; "/root/src/b.tsx"] |}
              session0
              [(posix_host, "/root/src/a.ts"); (posix_host, "/root/src/b.tsx");
               (posix_host, "/root/src/new.ts")])
    as (Hstarts & Hlives & _).
  - reflexivity.
  - by repeat split.
  - reflexivity.
  - reflexivity.
  - split; [exact Hstarts | exact Hlives].
Defined.

(** The claim C3 as worded fails when the start fails: two [compile] calls
    on the same file then make two [service.build] calls and leave no live
    process. *)
Lemma failed_start_is_repeated :
  starts_for "/root/tsconfig.json"
    (trace (run (compiles [(failing_host, "/root/src/a.ts");
                           (failing_host, "/root/src/a.ts")]) session0)) = 2
  ∧ live_for "/root/tsconfig.json"
      (run (compiles [(failing_host, "/root/src/a.ts");
                      (failing_host, "/root/src/a.ts")]) session0) = 0
  ∧ builds (run (compiles [(failing_host, "/root/src/a.ts");
                           (failing_host, "/root/src/a.ts")]) session0) = [].
Proof. vm_compute. done. Qed.

(** ** The invariant of the registry *)

(** A [compile] either leaves [fileMap] and [groupMap] as they are or
    starts a project. *)
Lemma compile_starts_or_keeps h filename c :
  (fileMap (fst (compile h filename c)) = fileMap c
   ∧ groupMap (fst (compile h filename c)) = groupMap c)
  ∨ ∃ m names, starts h filename c m names
               ∧ started_from c filename m names (fst (compile h filename c)).
Proof.
  rewrite compile_state.
  destruct (startBuilding_cases h filename c)
    as [?|e ? ?|m cfg ? ? ?|m cfg e ? ? ? ?|m cfg c' ? ? ? ? Hst];
    try (by left).
  right. exists m, (entryNames h cfg). split; [|done].
  split; [done|]. split; [done|]. by exists cfg.
Qed.

Lemma registered_started filename m names c c' :
  takes_over_whole c names → registered_invariant c →
  started_from c filename m names c' → registered_invariant c'.
Proof.
  intros Hwhole Hinv (_ & _ & _ & HfileMap & _ & HgroupMap & _) f b.
  rewrite HfileMap, HgroupMap, !lookup_insert_all.
  destruct (decide (f ∈ names)) as [Hin|Hnin].
  - intros [= <-]. exists names. split; [done|]. split; [done|].
    intros g Hg. by rewrite lookup_insert_all_elem.
  - intros Hf. destruct (Hinv f b Hf) as (G & HG & HfG & Hall).
    exists G. split; [done|]. split; [done|].
    intros g Hg. rewrite lookup_insert_all_other; [by apply Hall|].
    intros Hgn. apply Hnin. exact (Hwhole g f b Hgn (Hall g Hg) Hf).
Qed.

Lemma groups_have_process_started filename m names c c' :
  groups_have_process c → started_from c filename m names c' →
  groups_have_process c'.
Proof.
  intros Hgp (_ & _ & _ & HfileMap & _ & HgroupMap & _) f G.
  rewrite HgroupMap, HfileMap, !lookup_insert_all.
  destruct (decide (f ∈ names)); [by eexists | apply Hgp].
Qed.

Lemma dispose_all_or_not h' (bs : list BuildIncremental) :
  Forall (fun b => rebuild_dispose h' b = Fulfils) bs
  ∨ Exists (fun b => rebuild_dispose h' b ≠ Fulfils) bs.
Proof.
  induction bs as [|b bs [IH|IH]].
  - by left.
  - destruct (rebuild_dispose h' b) eqn:Hb.
    + left. by constructor.
    + right. apply Exists_cons_hd. by rewrite Hb.
    + right. apply Exists_cons_hd. by rewrite Hb.
  - right. by apply Exists_cons_tl.
Qed.

Lemma registered_step c op :
  takeover_ok c op → registered_invariant c → registered_invariant (step c op).
Proof.
  intros Hok Hinv. destruct op as [h filename|h|h]; simpl in *.
  - destruct (compile_starts_or_keeps h filename c)
      as [[Hf Hg]|(m & names & Hstarts & Hst)].
    + unfold registered_invariant. rewrite Hf, Hg. exact Hinv.
    + eapply registered_started; [|done..]. by eapply Hok.
  - by rewrite rebuild_run.
  - destruct (dispose_all_or_not h (builds c)) as [Hall|Hex].
    + rewrite invalidate_fulfils by done. simpl. intros f b Hf.
      simpl in Hf. by rewrite lookup_empty in Hf.
    + destruct (invalidate_fails h c Hex) as (e & done & b & -> & _). done.
Qed.

Lemma groups_have_process_step c op :
  is_invalidate op = false → groups_have_process c → groups_have_process (step c op).
Proof.
  intros Hop Hgp. destruct op as [h' filename|h'|h']; simpl in *; [| |done].
  - rewrite compile_state.
    destruct (startBuilding_cases h' filename c)
      as [?|e ? ?|m cfg ? ? ?|m cfg e ? ? ? ?|m cfg c' ? ? ? ? Hst]; try done.
    by eapply groups_have_process_started.
  - by rewrite rebuild_run.
Qed.

Lemma registered_run ops c :
  whole_takeovers ops c → registered_invariant c → registered_invariant (run ops c).
Proof.
  revert c. induction ops as [|op ops IH]; intros c Hok Hinv; [done|].
  destruct Hok as [Hop Hok]. simpl. apply IH; [done|]. by apply registered_step.
Qed.

Lemma groups_have_process_run ops c :
  forallb (fun op => negb (is_invalidate op)) ops = true →
  groups_have_process c → groups_have_process (run ops c).
Proof.
  revert c. induction ops as [|op ops IH]; intros c Hops Hgp; [done|].
  simpl in Hops. apply andb_true_iff in Hops as [Hop Hops].
  simpl. apply IH; [done|]. apply groups_have_process_step; [|done].
  by destruct (is_invalidate op).
Qed.

Lemma registered_is_invariant c :
  registered_invariant c → groups_have_process c → registry_invariant c.
Proof.
  intros Hinv Hgp f G HG. destruct (Hgp f G HG) as [b Hb].
  destruct (Hinv f b Hb) as (G' & HG' & Hin & Hall).
  rewrite HG in HG'. injection HG' as <-.
  split; [done|]. intros g Hg. rewrite Hb, (Hall g Hg). by split; [eexists|].
Qed.

(** A project started while no file is registered takes over nothing. *)
Lemma takeover_ok_fresh c op : fileMap c = ∅ → takeover_ok c op.
Proof.
  intros Hempty. destruct op as [h filename| |]; simpl; [|done..].
  intros m names _ g f b _ Hg. rewrite Hempty in Hg. by rewrite lookup_empty in Hg.
Qed.

(** A [compile] of a file that is registered starts nothing. *)
Lemma takeover_ok_known c h filename :
  truthy_at (fileMap c) filename = true → takeover_ok c (Compile h filename).
Proof. intros Hknown m names (Hfile & _). congruence. Qed.


(** On [nested_host], the project [/q] started after [/p] takes over the
    one file of [/p]. *)
Lemma nested_host_takeovers :
  whole_takeovers [Compile nested_host "/p/x.ts"; Compile nested_host "/q/z.ts"] session0.
Proof.
  split; [by apply takeover_ok_fresh|]. split; [|done].
  intros m names (_ & _ & cfg & Hres & -> & _) g f b _ _ Hf.
  destruct Hres as (Hfind & _ & -> & _). injection Hfind as <-.
  destruct (startBuilding_started nested_host "/p/x.ts" session0 "/p/tsconfig.json"
              {| errors := []; fileNames := ["/p/x.ts"] |})
    as (_ & _ & _ & _ & HfileMap & _); [reflexivity | by repeat split | reflexivity..|].
  simpl in Hf. rewrite compile_state, HfileMap, lookup_insert_all in Hf.
  destruct (decide (f ∈ entryNames nested_host
                          {| errors := []; fileNames := ["/p/x.ts"] |})) as [Hin|_];
    [|by change (fileMap session0) with (∅ : gmap string BuildIncremental) in Hf;
         rewrite lookup_empty in Hf].
  apply list_elem_of_singleton in Hin as ->. right. left.
Qed.



(** * Further properties of the registry *)

(** ** Soundness of the handles *)

Lemma handles_sound_new root dir : handles_sound (new_Compiler root dir).
Proof.
  unfold handles_sound. simpl. repeat split; try (by constructor);
    intros; try (by match goal with H : _ ∈ [] |- _ => apply elem_of_nil in H end);
    by match goal with H : ∅ !! _ = Some _ |- _ => rewrite lookup_empty in H end.
Qed.

Lemma handles_sound_traced evs c : handles_sound c → handles_sound (traced evs c).
Proof. done. Qed.

Lemma handles_sound_invalidated c : handles_sound c → handles_sound (invalidated c).
Proof.
  intros (_ & _ & _ & _ & Hgroup). unfold handles_sound. simpl.
  split; [constructor|]. split; [by intros b ?%elem_of_nil|].
  split; [intros m b Hb; by rewrite lookup_empty in Hb|].
  split; [intros f b Hb; by rewrite lookup_empty in Hb|done].
Qed.

Lemma handles_sound_started filename m names c c' :
  handles_sound c → truthy_at (tsConfigMap c) m = false →
  started_from c filename m names c' → handles_sound c'.
Proof.
  intros (Hids & Hlive & Hts & Hfile & Hgroup) [Hnone _]%truthy_at_false
         (_ & _ & Hbuilds & HfileMap & HtsMap & HgroupMap & Halloc & _).
  set (b' := started_build c m names) in *.
  unfold handles_sound. rewrite Hbuilds, HfileMap, HtsMap, HgroupMap, Halloc.
  split; [|split; [|split; [|split]]].
  - rewrite map_app. apply NoDup_app. split; [done|]. split; [|by apply NoDup_singleton].
    intros i Hi Hi'. apply list_elem_of_singleton in Hi'. subst i.
    apply list_elem_of_In, in_map_iff in Hi as (b & Hid & Hb).
    apply list_elem_of_In in Hb. destruct (Hlive b Hb) as [Hlt _].
    simpl in Hid. lia.
  - intros b [Hb| ->%list_elem_of_singleton]%elem_of_app.
    + destruct (Hlive b Hb) as [Hlt Hreg]. split; [lia|].
      rewrite lookup_insert_ne; [done|]. intros Heq. rewrite <- Heq in Hreg. congruence.
    + split; [simpl; lia|]. simpl. by rewrite lookup_insert_eq.
  - intros m0 b. destruct (decide (m = m0)) as [<-|Hne].
    + rewrite lookup_insert_eq. intros [= <-]. split; [|done].
      apply elem_of_app. right. by apply list_elem_of_singleton.
    + rewrite lookup_insert_ne by done. intros Hb.
      destruct (Hts m0 b Hb) as [Hin Hm]. split; [|done]. apply elem_of_app. by left.
  - intros f b. rewrite !lookup_insert_all.
    destruct (decide (f ∈ names)) as [Hin|Hnin].
    + intros [= <-]. split; [|done]. apply elem_of_app. right.
      by apply list_elem_of_singleton.
    + intros Hb. destruct (Hfile f b Hb) as (Hin & Hentry & Hg).
      split; [|done]. apply elem_of_app. by left.
  - intros f G. rewrite lookup_insert_all.
    destruct (decide (f ∈ names)) as [Hin|Hnin]; [by intros [= <-] | apply Hgroup].
Qed.

Lemma handles_sound_step c op : handles_sound c → handles_sound (step c op).
Proof.
  intros Hs. destruct op as [h filename|h|h]; simpl.
  - rewrite compile_state.
    destruct (startBuilding_cases h filename c)
      as [?|e ? ?|m cfg ? ? ?|m cfg e ? ? ? ?|m cfg c' ? ? ? ? Hst]; try done.
    by eapply handles_sound_started.
  - by rewrite rebuild_run.
  - destruct (dispose_all_or_not h (builds c)) as [Hall|Hex].
    + rewrite invalidate_fulfils by done. simpl.
      by apply handles_sound_traced, handles_sound_invalidated.
    + destruct (invalidate_fails h c Hex) as (e & done & b & -> & _). done.
Qed.

Lemma handles_sound_run ops c : handles_sound c → handles_sound (run ops c).
Proof.
  revert c. induction ops as [|op ops IH]; intros c Hs; [done|].
  simpl. by apply IH, handles_sound_step.
Qed.

Lemma NoDup_all_equal {A} (x : A) (l : list A) :
  NoDup l → (∀ y, y ∈ l → y = x) → x ∈ l → length l = 1.
Proof.
  intros Hnd Hall Hin. destruct l as [|a l]; [by apply elem_of_nil in Hin|].
  destruct l as [|a' l]; [done|].
  apply NoDup_cons in Hnd as [Hnin _]. exfalso. apply Hnin.
  rewrite (Hall a) by left. rewrite <- (Hall a') at 1 by (right; left). by left.
Qed.

Lemma handles_sound_live_for m c :
  handles_sound c →
  live_for m c = match tsConfigMap c !! m with Some _ => 1 | None => 0 end.
Proof.
  intros (Hids & Hlive & Hts & _). unfold live_for.
  assert (NoDup (builds c)) as Hnd by (by eapply NoDup_fmap_1).
  destruct (tsConfigMap c !! m) as [b|] eqn:Hm.
  - destruct (Hts m b Hm) as [Hin Htsb].
    apply (NoDup_all_equal b); [by apply NoDup_filter| |by apply list_elem_of_filter].
    intros y [Hy Hyin]%list_elem_of_filter. destruct (Hlive y Hyin) as [_ Hreg].
    rewrite Hy in Hreg. congruence.
  - destruct (filter _ (builds c)) as [|y l] eqn:Hf; [done|].
    assert (y ∈ filter (fun b => tsconfig (build_options b) = m) (builds c)) as Hy
        by (rewrite Hf; left).
    apply list_elem_of_filter in Hy as [Hy Hyin]. destruct (Hlive y Hyin) as [_ Hreg].
    rewrite Hy in Hreg. congruence.
Qed.

(** X1. In every state reached by calls made one after the other, each
    awaited before the next is made, under any hosts, a manifest has at
    most one live process: the number of live handles
    started for a manifest is one when the manifest is registered and zero
    otherwise; the registered handle is live and was started for that
    manifest, and no handle is live twice. *)
Theorem one_live_process_per_manifest :
  ∀ (root dir : string) (ops : list Op) (m : string),
    let c := run ops (new_Compiler root dir) in
    live_for m c = match tsConfigMap c !! m with Some _ => 1 | None => 0 end
    ∧ NoDup (builds c)
    ∧ ∀ b, tsConfigMap c !! m = Some b → b ∈ builds c ∧ tsconfig (build_options b) = m.
Proof.
  intros root dir ops m c.
  assert (handles_sound c) as Hs by apply handles_sound_run, handles_sound_new.
  split; [by apply handles_sound_live_for|].
  destruct Hs as (Hids & _ & Hts & _).
  split; [by eapply NoDup_fmap_1 | apply Hts].
Qed.

(** X2. In every state a session reaches, the process of a file is a live
    handle that was started with the file among its entry points, the
    group of the file is exactly that list of entry points, and every file
    that has a group belongs to it. *)
Theorem group_is_entry_points_of_process :
  ∀ (root dir : string) (ops : list Op) (f : string),
    let c := run ops (new_Compiler root dir) in
    (∀ b, fileMap c !! f = Some b →
       b ∈ builds c
       ∧ f ∈ entryPoints (build_options b)
       ∧ groupMap c !! f = Some (entryPoints (build_options b)))
    ∧ (∀ G, groupMap c !! f = Some G → f ∈ G).
Proof.
  intros root dir ops f c.
  assert (handles_sound c) as (_ & _ & _ & Hfile & Hgroup)
      by apply handles_sound_run, handles_sound_new.
  split; [apply Hfile | apply Hgroup].
Qed.

(** ** Groups are never removed *)

Lemma group_kept_step c op f G :
  groupMap c !! f = Some G → is_Some (groupMap (step c op) !! f).
Proof.
  intros HG. destruct op as [h filename|h|h]; simpl.
  - rewrite compile_state.
    destruct (startBuilding_cases h filename c)
      as [?|e ? ?|m cfg ? ? ?|m cfg e ? ? ? ?|m cfg c' ? ? ? ? Hst];
      try (by eexists).
    destruct Hst as (_ & _ & _ & _ & _ & -> & _). rewrite lookup_insert_all.
    destruct (decide (f ∈ entryNames h cfg)); by eexists.
  - rewrite rebuild_run. by eexists.
  - destruct (dispose_all_or_not h (builds c)) as [Hall|Hex].
    + rewrite invalidate_fulfils by done. by eexists.
    + destruct (invalidate_fails h c Hex) as (e & done & b & -> & _). by eexists.
Qed.

(** X3. No operation removes a group: once [groupMap[file]] exists it
    exists after any further calls, [invalidateBuildSet] included, so
    [fileGroup(file)] returns an object then and leaves the state as it
    is. *)
Theorem group_is_never_removed :
  ∀ (c : Compiler) (ops : list Op) (f : string) (G : list string),
    groupMap c !! f = Some G →
    is_Some (groupMap (run ops c) !! f)
    ∧ ∀ h, ∃ o, fileGroup h f (run ops c) = (run ops c, Normal o).
Proof.
  intros c ops f G HG.
  assert (is_Some (groupMap (run ops c) !! f)) as [G' HG'].
  { revert c G HG. induction ops as [|op ops IH]; intros c G HG; [by eexists|].
    destruct (group_kept_step c op f G HG) as [G1 HG1]. simpl. by eapply IH. }
  split; [by eexists|]. intros h.
  eexists. unfold fileGroup. run_m. by rewrite HG'.
Qed.

Lemma group_is_never_removed_witness :
  is_Some (groupMap (run [Invalidate posix_host; RebuildAll failing_host] one_live)
             !! "/root/src/a.ts")
  ∧ ∃ o, fileGroup posix_host "/root/src/a.ts"
           (run [Invalidate posix_host; RebuildAll failing_host] one_live)
         = (run [Invalidate posix_host; RebuildAll failing_host] one_live, Normal o).
Proof.
  destruct (group_is_never_removed one_live
              [Invalidate posix_host; RebuildAll failing_host]
              "/root/src/a.ts" ["/root/src/a.ts"; "/root/src/b.tsx"])
    as [Hsome Hgroup].
  - vm_compute. reflexivity.
  - split; [exact Hsome | exact (Hgroup posix_host)].
Defined.

(** ** What a successful start registers *)

(** X4. A [compile] that starts a project (the reads [fileMap[file]] and
    [tsConfigMap[m]] give nothing and [service.build] fulfils) registers
    the whole project at once: the new handle is appended to the live
    handles and becomes the process of the manifest; every member file
    gets that process and the member list as its group, whatever entries
    it had; no other file's entries change; and [fileGroup] of any member
    then has a property for every member, with that member's output
    path. *)
Theorem compile_registers_whole_group :
  ∀ (h : Host) (filename m : string) (cfg : ParsedCommandLine) (c : Compiler),
    truthy_at (fileMap c) filename = false →
    resolves_to h filename m cfg →
    truthy_at (tsConfigMap c) m = false →
    service_build h (buildOptions c (entryNames h cfg) m) = Fulfils →
    let names := entryNames h cfg in
    let b := started_build c m names in
    let c' := fst (compile h filename c) in
    snd (compile h filename c) = Normal (destination h c filename)
    ∧ builds c' = builds c ++ [b]
    ∧ tsConfigMap c' = <[m := b]> (tsConfigMap c)
    ∧ (∀ g, g ∈ names → fileMap c' !! g = Some b ∧ groupMap c' !! g = Some names)
    ∧ (∀ g, g ∉ names →
         fileMap c' !! g = fileMap c !! g ∧ groupMap c' !! g = groupMap c !! g)
    ∧ (∀ g g', g ∈ names → g' ∈ names →
         ∃ o, fileGroup h g c' = (c', Normal o)
              ∧ get_property o g' = Some (destination h c g')).
Proof.
  intros h filename m cfg c Hfile Hres Hnone Hok names b c'.
  destruct (startBuilding_started h filename c m cfg Hfile Hres Hnone Hok)
    as (Hret & Hroot & Hdir & Hbuilds & HfileMap & Hts & HgroupMap & _).
  rewrite <- compile_state in Hroot, Hdir, Hbuilds, HfileMap, Hts, HgroupMap.
  fold names b c' in Hroot, Hdir, Hbuilds, HfileMap, Hts, HgroupMap.
  split; [by rewrite compile_result, Hret|].
  split; [done|]. split; [done|]. split; [|split].
  - intros g Hg. rewrite HfileMap, HgroupMap. by rewrite !lookup_insert_all_elem.
  - intros g Hg. rewrite HfileMap, HgroupMap. by rewrite !lookup_insert_all_other.
  - intros g g' Hg Hg'. eexists. split.
    + unfold fileGroup. run_m. rewrite HgroupMap, lookup_insert_all_elem by done.
      reflexivity.
    + rewrite (fromEntries_first_occurrences (destination h c')).
      rewrite (get_property_entry (destination h c'))
        by (by apply elem_of_first_occurrences).
      f_equal. by apply destination_settings.
Qed.

Lemma compile_registers_whole_group_witness :
  fileMap (fst (compile posix_host "/root/src/a.ts" session0)) !! "/root/src/b.tsx"
  = Some (started_build session0 "/root/tsconfig.json"
            ["/root/src/a.ts"; "/root/src/b.tsx"])
  ∧ ∃ o, fileGroup posix_host "/root/src/b.tsx"
           (fst (compile posix_host "/root/src/a.ts" session0))
         = (fst (compile posix_host "/root/src/a.ts" session0), Normal o)
         ∧ get_property o "/root/src/a.ts" = Some "/out/src/a.js".
Proof.
  destruct (compile_registers_whole_group posix_host "/root/src/a.ts"
              "/root/tsconfig.json"
              {| errors := []; fileNames := ["/root/src/a.ts"; "/root/src/b.tsx"] |}
              session0)
    as (_ & _ & _ & Hmembers & _ & Hgroup).
  - reflexivity.
  - by repeat split.
  - reflexivity.
  - reflexivity.
  - split.
    + apply Hmembers. right. left.
    + apply (Hgroup "/root/src/b.tsx" "/root/src/a.ts"); [right; left | left].
Defined.

(** X5. After a [compile] has started a project (the reads
    [fileMap[file]] and [tsConfigMap[m]] gave nothing and [service.build]
    fulfilled), a [compile] of any of its member files, under any host,
    returns the output path at once: it resolves nothing, calls nothing,
    and the state is exactly as it was. *)
Theorem compile_of_member_changes_nothing :
  ∀ (h : Host) (filename m : string) (cfg : ParsedCommandLine) (c : Compiler),
    truthy_at (fileMap c) filename = false →
    resolves_to h filename m cfg →
    truthy_at (tsConfigMap c) m = false →
    service_build h (buildOptions c (entryNames h cfg) m) = Fulfils →
    let c' := fst (compile h filename c) in
    ∀ (h' : Host) (g : string),
      g ∈ entryNames h cfg →
      compile h' g c' = (c', Normal (destination h' c g)).
Proof.
  intros h filename m cfg c Hfile Hres Hnone Hok c' h' g Hg.
  destruct (startBuilding_started h filename c m cfg Hfile Hres Hnone Hok)
    as (_ & Hroot & Hdir & _ & HfileMap & _).
  rewrite <- compile_state in Hroot, Hdir, HfileMap. fold c' in Hroot, Hdir, HfileMap.
  rewrite (surjective_pairing (compile h' g c')), compile_state, compile_result.
  rewrite (startBuilding_known h' g c')
    by (by rewrite HfileMap, truthy_at_insert_all_elem).
  simpl. by rewrite (destination_settings h' c c').
Qed.

Lemma compile_of_member_changes_nothing_witness :
  compile failing_host "/root/src/b.tsx" (fst (compile posix_host "/root/src/a.ts" session0))
  = (fst (compile posix_host "/root/src/a.ts" session0), Normal "/out/src/b.js").
Proof.
  apply (compile_of_member_changes_nothing posix_host "/root/src/a.ts"
           "/root/tsconfig.json"
           {| errors := []; fileNames := ["/root/src/a.ts"; "/root/src/b.tsx"] |}
           session0); [reflexivity | by repeat split | reflexivity | reflexivity |].
  right. left.
Defined.

(** X6. [compile(file)] fails exactly when the read [fileMap[file]] gives
    nothing ([file] has no process and is not the name of a property every
    object inherits) and the configuration of [file] cannot be resolved,
    and then with the error of the resolution: a failure of
    [service.build] never reaches the caller. *)
Theorem compile_fails_only_on_resolution :
  ∀ (h : Host) (filename : string) (c : Compiler) (e : exn),
    snd (compile h filename c) = Abrupt e
    ↔ (fileMap c !! filename = None ∧ inherited filename = false)
      ∧ snd (getTSConfig h filename c) = Abrupt e.
Proof.
  intros h filename c e. rewrite compile_result, <- truthy_at_false. split.
  - destruct (startBuilding_cases h filename c)
      as [?|e' ? ?|m cfg ? ? ?|m cfg e' ? ? ? ?|m cfg c' ? ? ? ? Hst];
      try discriminate.
    intros [= ->]. done.
  - intros [Hfile Hcfg].
    by rewrite (startBuilding_unresolved h filename c e Hfile Hcfg).
Qed.

(** ** Invalidation, again *)

Lemma build_calls_map_dispose bs : build_calls (map Dispose bs) = [].
Proof. induction bs as [|b bs IH]; [done | exact IH]. Qed.

(** X7. After an invalidation whose disposals all succeed, a [compile] of
    a file whose configuration resolves always starts its project anew,
    whether or not the file had a process before, provided neither the
    file nor its manifest has the name of a property every object
    inherits: [service.build] is called once more, the new handle is the
    only live one and the only registered one, and exactly the member
    files have a process. *)
Theorem compile_after_invalidation_starts_anew :
  ∀ (h1 h : Host) (filename m : string) (cfg : ParsedCommandLine) (c : Compiler),
    Forall (fun b => rebuild_dispose h1 b = Fulfils) (builds c) →
    inherited filename = false →
    inherited m = false →
    resolves_to h filename m cfg →
    service_build h (buildOptions c (entryNames h cfg) m) = Fulfils →
    let names := entryNames h cfg in
    let b := started_build c m names in
    let c' := run [Invalidate h1; Compile h filename] c in
    builds c' = [b]
    ∧ tsConfigMap c' = {[ m := b ]}
    ∧ (∀ g, fileMap c' !! g = if decide (g ∈ names) then Some b else None)
    ∧ build_calls (trace c') = build_calls (trace c) ++ [buildOptions c names m]
    ∧ dispose_calls (trace c') = dispose_calls (trace c) ++ builds c.
Proof.
  intros h1 h filename m cfg c Hall Hfile Hm Hres Hok names b c'.
  subst names b c'. simpl. rewrite (invalidate_fulfils h1 c Hall). simpl.
  set (c1 := traced (map Dispose (builds c)) (invalidated c)).
  destruct (startBuilding_started h filename c1 m cfg)
    as (_ & _ & _ & Hb & Hf & Ht & _ & _ & Htr);
    [by rewrite <- Hfile; apply truthy_at_empty | done
    | by rewrite <- Hm; apply truthy_at_empty | done |].
  rewrite <- compile_state in Hb, Hf, Ht, Htr.
  rewrite Hb, Hf, Ht, Htr. repeat split.
  - intros g. rewrite lookup_insert_all. destruct (decide (g ∈ entryNames h cfg)); [done | apply lookup_empty].
  - simpl. rewrite !build_calls_app. simpl.
    by rewrite build_calls_map_dispose, app_nil_r.
  - simpl. rewrite !dispose_calls_app, dispose_calls_map. simpl. by rewrite app_nil_r.
Qed.

Lemma compile_after_invalidation_starts_anew_witness :
  map build_id (builds (run [Invalidate posix_host; Compile posix_host "/root/src/b.tsx"]
                          one_live)) = [1]
  ∧ build_calls (trace (run [Invalidate posix_host; Compile posix_host "/root/src/b.tsx"]
                          one_live))
    = build_calls (trace one_live)
      ++ [buildOptions one_live ["/root/src/a.ts"; "/root/src/b.tsx"] "/root/tsconfig.json"].
Proof.
  destruct (compile_after_invalidation_starts_anew posix_host posix_host
              "/root/src/b.tsx" "/root/tsconfig.json"
              {| errors := []; fileNames := ["/root/src/a.ts"; "/root/src/b.tsx"] |}
              one_live)
    as (Hb & _ & _ & Hcalls & _).
  - vm_compute. repeat constructor.
  - reflexivity.
  - reflexivity.
  - by repeat split.
  - reflexivity.
  - split; [by rewrite Hb | exact Hcalls].
Defined.

(** X8. Once an invalidation has succeeded, invalidating again, under any
    host, calls [dispose] on nothing, returns normally and leaves the
    state exactly as it is: over the two calls every handle has been
    disposed once. *)
Theorem invalidation_disposes_once :
  ∀ (h1 h2 : Host) (c : Compiler),
    Forall (fun b => rebuild_dispose h1 b = Fulfils) (builds c) →
    let c1 := fst (invalidateBuildSet h1 c) in
    invalidateBuildSet h2 c1 = (c1, Normal tt)
    ∧ dispose_calls (trace c1) = dispose_calls (trace c) ++ builds c.
Proof.
  intros h1 h2 c Hall c1. subst c1. rewrite (invalidate_fulfils h1 c Hall). simpl.
  split.
  - rewrite invalidate_fulfils by constructor. simpl. f_equal.
    unfold traced, invalidated, set_trace. simpl. by rewrite app_nil_r.
  - by rewrite dispose_calls_app, dispose_calls_map.
Qed.

Lemma invalidation_disposes_once_witness :
  invalidateBuildSet failing_host (fst (invalidateBuildSet posix_host one_live))
  = (fst (invalidateBuildSet posix_host one_live), Normal tt).
Proof.
  apply (invalidation_disposes_once posix_host failing_host one_live).
  vm_compute. repeat constructor.
Defined.

(** ** Swallowing the errors of esbuild *)

(** X9. [reportESBuildErrors(run)] never fails, whatever [run] does.  If
    [run] throws, the error is logged at once and the promise returned
    settles to [undefined]; otherwise the promise returned settles to the
    value of [run]'s promise, or, if that one is rejected, logs its error
    once and settles to [undefined].  What [run] did before it failed is
    kept. *)
Theorem reportESBuildErrors_never_fails :
  ∀ (T : Type) (run : M (Promise T)) (c : Compiler),
    ∃ p,
      reportESBuildErrors run c
      = (match run c with
         | (c1, Normal _) => c1
         | (c1, Abrupt e) => traced [LogError e] c1
         end, Normal p)
      ∧ ∀ c',
          p c' = match run c with
                 | (_, Normal q) =>
                     match q c' with
                     | (c2, Normal v) => (c2, Normal (Some v))
                     | (c2, Abrupt e) => (traced [LogError e] c2, Normal None)
                     end
                 | (_, Abrupt _) => (c', Normal None)
                 end.
Proof.
  intros T run c. unfold reportESBuildErrors. run_m.
  destruct (run c) as [c1 [q|e]]; simpl.
  - eexists. split; [reflexivity|]. intros c'. simpl.
    by destruct (q c') as [c2 [v|e]].
  - eexists. split; [reflexivity|]. done.
Qed.

(** ** Paths with forward slashes on win32 *)

Lemma replace_slashes_has_no_slash s :
  has_slash (JsString.replace_slashes "\" s) = false.
Proof.
  induction s as [|ch s IH]; [done|]. simpl.
  destruct (Ascii.eqb ch "/") eqn:Hch.
  - change (has_slash (String "\" (JsString.replace_slashes "\" s)) = false).
    simpl. exact IH.
  - simpl. by rewrite Hch.
Qed.

Lemma win32_names_have_no_slash h cfg f :
  win32 h = true → has_slash f = true → f ∉ entryNames h cfg.
Proof.
  intros Hwin Hf Hin. unfold entryNames in Hin. rewrite Hwin in Hin.
  apply list_elem_of_In, in_map_iff in Hin as (g & <- & _).
  by rewrite replace_slashes_has_no_slash in Hf.
Qed.

Lemma has_slash_not_inherited f : has_slash f = true → inherited f = false.
Proof.
  intros Hf. destruct (inherited f) eqn:Hin; [|done].
  apply existsb_exists in Hin as (name & Hname & ->%String.eqb_eq).
  simpl in Hname. repeat (destruct Hname as [<-|Hname]; [discriminate Hf|]).
  destruct Hname.
Qed.

Lemma win32_step_registers_no_slash c op f :
  win32 (host_of op) = true → has_slash f = true →
  fileMap c !! f = None → fileMap (step c op) !! f = None.
Proof.
  intros Hwin Hf Hnone. destruct op as [h filename|h|h]; simpl in *.
  - rewrite compile_state.
    destruct (startBuilding_cases h filename c)
      as [?|e ? ?|m cfg ? ? ?|m cfg e ? ? ? ?|m cfg c' ? ? ? ? Hst]; try done.
    destruct Hst as (_ & _ & _ & -> & _).
    rewrite lookup_insert_all_other; [done|]. by apply win32_names_have_no_slash.
  - by rewrite rebuild_run.
  - destruct (dispose_all_or_not h (builds c)) as [Hall|Hex].
    + rewrite invalidate_fulfils by done. apply lookup_empty.
    + destruct (invalidate_fails h c Hex) as (e & done & b & -> & _). done.
Qed.

(** X10. On win32 the member files are registered with backslashes, so a
    path that contains a forward slash never gets a process, whatever is
    called: every [compile] of such a path finds it unknown and resolves
    its configuration again. *)
Theorem win32_never_registers_forward_slash :
  ∀ (ops : list Op) (c : Compiler) (f : string),
    Forall (fun op => win32 (host_of op) = true) ops →
    has_slash f = true →
    fileMap c !! f = None →
    fileMap (run ops c) !! f = None
    ∧ ∀ h, resolutions (trace (fst (compile h f (run ops c))))
           = resolutions (trace (run ops c)) ++ [f].
Proof.
  intros ops c f Hops Hf Hnone.
  assert (fileMap (run ops c) !! f = None) as Hrun.
  { revert c Hnone. induction Hops as [|op ops Hop _ IH]; intros c Hnone; [done|].
    simpl. by apply IH, win32_step_registers_no_slash. }
  split; [done|]. intros h. apply compile_resolves, truthy_at_false.
  split; [done | by apply has_slash_not_inherited].
Qed.

Lemma win32_never_registers_forward_slash_witness :
  fileMap (run [Compile win32_host "C:/ws/src/a.ts"; Compile win32_host "C:/ws/src/a.ts"]
             (new_Compiler "C:/ws" "C:/out")) !! "C:/ws/src/a.ts" = None.
Proof.
  apply (win32_never_registers_forward_slash
           [Compile win32_host "C:/ws/src/a.ts"; Compile win32_host "C:/ws/src/a.ts"]
           (new_Compiler "C:/ws" "C:/out") "C:/ws/src/a.ts");
    [repeat constructor | reflexivity | reflexivity].
Defined.

(** ** Names the mapper leaves alone *)

Lemma ends_with_tail suffix ch s :
  ends_with suffix (String ch s) = false → ends_with suffix s = false.
Proof. simpl. by intros [_ ?]%orb_false_iff. Qed.

Lemma ends_with_self suffix : ends_with suffix suffix = true.
Proof. destruct suffix; simpl; [done|]. by rewrite Ascii.eqb_refl, String.eqb_refl. Qed.

Lemma replace_dot_tsx_end_other rep s :
  ends_with "ts" s = false → ends_with "tsx" s = false →
  JsString.replace_dot_tsx_end rep s = s.
Proof.
  induction s as [|ch s IH]; intros Hts Htsx; [done|].
  rewrite replace_dot_tsx_end_unfold.
  apply ends_with_tail in Hts as Hts'. apply ends_with_tail in Htsx as Htsx'.
  assert (JsString.matches_dot_tsx_end (String ch s) = false) as ->.
  { unfold JsString.matches_dot_tsx_end.
    destruct (String.eqb_spec s "tsx") as [->|_]; [by rewrite ends_with_self in Htsx'|].
    destruct (String.eqb_spec s "ts") as [->|_]; [by rewrite ends_with_self in Hts'|].
    apply andb_false_r. }
  by rewrite IH.
Qed.

(** X11. A file under the workspace root whose name ends neither in [ts]
    nor in [tsx] keeps its name: its output path is its path relative to
    the root, joined to the work directory. *)
Theorem destination_keeps_other_names :
  ∀ (h : Host) (c : Compiler) (rel : string),
    ends_with "ts" rel = false → ends_with "tsx" rel = false →
    destination h c (workspaceRoot c +:+ rel) = path_join h [workDir c; rel].
Proof.
  intros h c rel Hts Htsx. unfold destination.
  by rewrite replace_leading, replace_dot_tsx_end_other.
Qed.

Lemma destination_keeps_other_names_witness :
  destination posix_host session0 "/root/data/config.json" = "/out/data/config.json".
Proof.
  apply (destination_keeps_other_names posix_host session0 "/data/config.json");
    reflexivity.
Defined.

Lemma replace_absent pat rep s : occurs pat s = false → JsString.replace pat rep s = s.
Proof.
  induction s as [|ch s IH]; intros Hocc; rewrite replace_unfold;
    simpl in Hocc; apply orb_false_iff in Hocc as [-> Hocc]; [done|].
  by rewrite IH.
Qed.

(** X12. When the workspace root does not occur in a file name, nothing
    is stripped: the output path is the whole file name, with its
    extension rewritten, joined to the work directory. *)
Theorem destination_outside_workspace :
  ∀ (h : Host) (c : Compiler) (filename : string),
    occurs (workspaceRoot c) filename = false →
    destination h c filename
    = path_join h [workDir c; JsString.replace_dot_tsx_end ".js" filename].
Proof. intros h c filename Hocc. unfold destination. by rewrite replace_absent. Qed.

Lemma destination_outside_workspace_witness :
  destination posix_host session0 "/elsewhere/c.ts" = "/out/elsewhere/c.js".
Proof.
  apply (destination_outside_workspace posix_host session0 "/elsewhere/c.ts").
  reflexivity.
Defined.

(** ** The base name of an output path, on POSIX *)

Lemma string_append_assoc (s t u : string) : (s +:+ t) +:+ u = s +:+ (t +:+ u).
Proof.
  induction s as [|a s IH]; [reflexivity|].
  change (String a ((s +:+ t) +:+ u) = String a (s +:+ t +:+ u)). by rewrite IH.
Qed.

Lemma string_append_nil_r (s : string) : s +:+ "" = s.
Proof.
  induction s as [|a s IH]; [reflexivity|].
  change (String a (s +:+ "") = String a s). by rewrite IH.
Qed.

Lemma split_slash_no_slash y : has_slash y = false → JsString.split_slash y = [y].
Proof.
  induction y as [|ch y IH]; [done|]. simpl.
  intros [Hch Hy]%orb_false_iff. rewrite Hch, IH by done. done.
Qed.

Lemma last_segment_snoc init seg x :
  JsString.split_slash x = init ++ [seg] → last_segment x = seg.
Proof. intros Hx. unfold last_segment. rewrite Hx. apply last_last. Qed.

(** The segments of [x], and of [x] followed by a string without slash:
    only the last segment grows. *)
Lemma split_slash_snoc x :
  ∃ init,
    JsString.split_slash x = init ++ [last_segment x]
    ∧ ∀ y, has_slash y = false →
           JsString.split_slash (x +:+ y) = init ++ [last_segment x +:+ y].
Proof.
  induction x as [|ch x (init & Hx & Hxy)].
  - exists []. split; [done|]. intros y Hy. by apply split_slash_no_slash.
  - destruct (Ascii.eqb ch "/") eqn:Hch.
    + assert (JsString.split_slash (String ch x) = ("" :: init) ++ [last_segment x]) as Hs
          by (simpl; by rewrite Hch, Hx).
      exists ("" :: init). rewrite (last_segment_snoc _ _ _ Hs). split; [done|].
      intros y Hy. change (String ch x +:+ y) with (String ch (x +:+ y)). simpl.
      by rewrite Hch, Hxy.
    + destruct init as [|s0 init].
      * assert (JsString.split_slash (String ch x) = [] ++ [String ch (last_segment x)])
          as Hs by (simpl; by rewrite Hch, Hx).
        exists []. rewrite (last_segment_snoc _ _ _ Hs). split; [done|].
        intros y Hy. change (String ch x +:+ y) with (String ch (x +:+ y)). simpl.
        by rewrite Hch, Hxy.
      * assert (JsString.split_slash (String ch x)
                = (String ch s0 :: init) ++ [last_segment x]) as Hs
            by (simpl; by rewrite Hch, Hx).
        exists (String ch s0 :: init). rewrite (last_segment_snoc _ _ _ Hs).
        split; [done|].
        intros y Hy. change (String ch x +:+ y) with (String ch (x +:+ y)). simpl.
        by rewrite Hch, Hxy.
Qed.

Lemma split_slash_app_slash a r :
  JsString.split_slash (a +:+ String "/" r)
  = JsString.split_slash a ++ JsString.split_slash r.
Proof.
  induction a as [|ch a IH]; [done|].
  change (String ch a +:+ String "/" r) with (String ch (a +:+ String "/" r)).
  simpl. rewrite IH. destruct (Ascii.eqb ch "/"); [done|].
  destruct (split_slash_snoc a) as (init & -> & _). by destruct init.
Qed.

Lemma last_segment_after_slash a r : last_segment (a +:+ String "/" r) = last_segment r.
Proof.
  destruct (split_slash_snoc r) as (init & Hr & _).
  apply (last_segment_snoc (JsString.split_slash a ++ init)).
  by rewrite split_slash_app_slash, Hr, app_assoc.
Qed.

Lemma join_snoc sep l a : ∃ pre, JsString.join sep (l ++ [a]) = pre +:+ a.
Proof.
  induction l as [|p l [pre IH]]; [by exists ""|].
  exists (p +:+ sep +:+ pre).
  change ((p :: l) ++ [a]) with (p :: (l ++ [a])).
  destruct (l ++ [a]) as [|q rest] eqn:Hl; [by destruct l|].
  change (JsString.join sep (p :: q :: rest))
    with (p +:+ sep +:+ JsString.join sep (q :: rest)).
  by rewrite IH, !string_append_assoc.
Qed.

Lemma ends_with_slash_js x : JsString.ends_with_slash (x +:+ ".js") = false.
Proof.
  induction x as [|ch x IH]; [done|].
  change (String ch x +:+ ".js") with (String ch (x +:+ ".js")).
  simpl. destruct (x +:+ ".js") eqn:Hx; [by destruct x | exact IH].
Qed.

Lemma js_is_kept (allowAboveRoot : bool) stack seg :
  PosixPath.push_segment allowAboveRoot stack (seg +:+ ".js") = (seg +:+ ".js") :: stack.
Proof.
  unfold PosixPath.push_segment.
  rewrite !eqb_false_of_length; [done| | |]; rewrite string_length_append; simpl; lia.
Qed.

(** Normalizing a path that ends in [.js] keeps its last segment. *)
Lemma normalize_js x :
  ∃ dir, PosixPath.normalize (x +:+ ".js") = dir +:+ last_segment x +:+ ".js".
Proof.
  unfold PosixPath.normalize, PosixPath.normalizeString.
  rewrite (eqb_false_of_length (x +:+ ".js") "")
    by (rewrite string_length_append; simpl; lia).
  rewrite ends_with_slash_js.
  set (isAbsolute := JsString.startsWith "/" (x +:+ ".js")).
  destruct (split_slash_snoc x) as (init & _ & ->); [|done].
  rewrite fold_left_app. simpl. rewrite js_is_kept. simpl.
  destruct (join_snoc "/" (rev (fold_left (PosixPath.push_segment (negb isAbsolute))
                                  init [])) (last_segment x +:+ ".js")) as [pre ->].
  rewrite (eqb_false_of_length (pre +:+ last_segment x +:+ ".js") "")
    by (rewrite !string_length_append; simpl; lia).
  exists ((if isAbsolute then "/" else "") +:+ pre).
  by rewrite string_append_nil_r, !string_append_assoc.
Qed.

(** X13. On a POSIX host the output path of a source under the workspace
    root, [.ts] or [.tsx], is some directory followed by the base name of
    the source with the extension [.js]. *)
Theorem destination_keeps_base_name :
  ∀ (h : Host) (c : Compiler) (rel : string),
    path_join h = PosixPath.join →
    ∃ dir,
      destination h c (workspaceRoot c +:+ rel +:+ ".ts")
      = dir +:+ last_segment rel +:+ ".js"
      ∧ destination h c (workspaceRoot c +:+ rel +:+ ".tsx")
        = dir +:+ last_segment rel +:+ ".js".
Proof.
  intros h c rel Hjoin. rewrite destination_ts, destination_tsx, Hjoin.
  unfold PosixPath.join. simpl.
  rewrite (eqb_false_of_length (rel +:+ ".js") "")
    by (rewrite string_length_append; simpl; lia).
  destruct (String.eqb (workDir c) ""); simpl.
  - destruct (normalize_js rel) as [dir ->]. by exists dir.
  - change (workDir c +:+ "/" +:+ rel +:+ ".js")
      with (workDir c +:+ String "/" (rel +:+ ".js")).
    change (String "/" (rel +:+ ".js")) with (String "/" rel +:+ ".js").
    rewrite <- string_append_assoc.
    destruct (normalize_js (workDir c +:+ String "/" rel)) as [dir ->].
    exists dir. by rewrite last_segment_after_slash.
Qed.

Lemma destination_keeps_base_name_witness :
  ∃ dir,
    destination posix_host session0 "/root/src/../lib/a.ts" = dir +:+ "a" +:+ ".js".
Proof.
  destruct (destination_keeps_base_name posix_host session0 "/src/../lib/a")
    as (dir & Hts & _); [reflexivity|].
  exists dir. exact Hts.
Defined.

(** ** What [compile] never does *)

(** X14. A [compile] never tears anything down: the live handles it
    finds stay live, in order, with at most one new handle after them;
    every registered manifest keeps its process and every file that has a
    process still has one; nothing is disposed or rebuilt; and the call
    resolves at most once and calls [service.build] at most once. *)
Theorem compile_only_adds :
  ∀ (h : Host) (filename : string) (c : Compiler),
    let c' := fst (compile h filename c) in
    builds c `prefix_of` builds c'
    ∧ (length (builds c') ≤ S (length (builds c)))%nat
    ∧ (∀ m b, tsConfigMap c !! m = Some b → tsConfigMap c' !! m = Some b)
    ∧ (∀ f, is_Some (fileMap c !! f) → is_Some (fileMap c' !! f))
    ∧ dispose_calls (trace c') = dispose_calls (trace c)
    ∧ rebuild_calls (trace c') = rebuild_calls (trace c)
    ∧ (length (build_calls (trace c')) ≤ S (length (build_calls (trace c))))%nat
    ∧ (length (resolutions (trace c')) ≤ S (length (resolutions (trace c))))%nat.
Proof.
  intros h filename c c'. subst c'. rewrite compile_state.
  destruct (startBuilding_cases h filename c)
    as [?|e ? ?|m cfg ? ? ?|m cfg e ? ? ? ?|m cfg c' ? ? Hnone ? Hst].
  1-4: simpl; rewrite ?dispose_calls_app, ?rebuild_calls_app, ?build_calls_app,
         ?resolutions_app, ?length_app; simpl; rewrite ?app_nil_r;
       repeat split; try done; lia.
  destruct Hst as (_ & _ & -> & -> & -> & _ & _ & ->).
  rewrite dispose_calls_app, rebuild_calls_app, build_calls_app, resolutions_app,
    !length_app. simpl. rewrite !app_nil_r.
  repeat split; try lia.
  - by apply prefix_app_r.
  - intros m0 b0 Hb0. rewrite lookup_insert_ne; [done|]. intros <-.
    by rewrite (truthy_at_own _ _ _ Hb0) in Hnone.
  - intros f [b0 Hb0]. rewrite lookup_insert_all.
    destruct (decide (f ∈ entryNames h cfg)); by eexists.
Qed.

Lemma compile_only_adds_witness :
  tsConfigMap (fst (compile three_projects_host "/p2/main.ts" one_live))
    !! "/root/tsconfig.json"
  = Some (started_build session0 "/root/tsconfig.json"
            ["/root/src/a.ts"; "/root/src/b.tsx"]).
Proof.
  destruct (compile_only_adds three_projects_host "/p2/main.ts" one_live)
    as (_ & _ & Hkeep & _).
  apply Hkeep. vm_compute. reflexivity.
Defined.

Lemma one_live_process_per_manifest_witness :
  live_for "/root/tsconfig.json"
    (run [Compile posix_host "/root/src/a.ts"; Invalidate failing_host;
          Compile posix_host "/root/src/b.tsx"] session0) = 1
  ∧ started_build session0 "/root/tsconfig.json" ["/root/src/a.ts"; "/root/src/b.tsx"]
    ∈ builds (run [Compile posix_host "/root/src/a.ts"; Invalidate failing_host;
                   Compile posix_host "/root/src/b.tsx"] session0).
Proof.
  destruct (one_live_process_per_manifest "/root" "/out"
              [Compile posix_host "/root/src/a.ts"; Invalidate failing_host;
               Compile posix_host "/root/src/b.tsx"] "/root/tsconfig.json")
    as (Hlive & _ & Hreg).
  split.
  - unfold session0. rewrite Hlive. vm_compute. reflexivity.
  - apply Hreg. vm_compute. reflexivity.
Defined.

Lemma group_is_entry_points_of_process_witness :
  groupMap (run [Compile posix_host "/root/src/a.ts"] session0) !! "/root/src/b.tsx"
  = Some ["/root/src/a.ts"; "/root/src/b.tsx"].
Proof.
  destruct (group_is_entry_points_of_process "/root" "/out"
              [Compile posix_host "/root/src/a.ts"] "/root/src/b.tsx") as [Hfile _].
  destruct (Hfile (started_build session0 "/root/tsconfig.json"
                     ["/root/src/a.ts"; "/root/src/b.tsx"])) as (_ & _ & Hgroup).
  - vm_compute. reflexivity.
  - exact Hgroup.
Defined.

Lemma compile_fails_only_on_resolution_witness :
  snd (compile posix_host "/elsewhere/c.ts" one_live)
  = Abrupt (JsError "couldnt find tsconfig.json near /elsewhere/c.ts").
Proof.
  apply (compile_fails_only_on_resolution posix_host "/elsewhere/c.ts" one_live).
  repeat split; vm_compute; reflexivity.
Defined.

(** ** Names that every object inherits *)

(** X16. A [compile] of a file whose name is that of a property every
    object inherits ([constructor], [toString], [__proto__], ...) does
    nothing, in any state and under any host: the read of line 97 finds the
    inherited property, so the call returns the output path at once, with
    no resolution, no [service.build] and no change of the state; a
    session of such calls ends in the state it began in. *)
Theorem compile_of_inherited_name_does_nothing :
  ∀ (calls : list (Host * string)) (c : Compiler),
    Forall (fun call => inherited (snd call) = true) calls →
    run (compiles calls) c = c
    ∧ ∀ h filename,
        inherited filename = true →
        compile h filename c = (c, Normal (destination h c filename)).
Proof.
  intros calls c Hcalls. split.
  - induction Hcalls as [|[h filename] calls Hcall _ IH]; [done|].
    simpl in *. rewrite compile_known by (by apply truthy_at_inherited). exact IH.
  - intros h filename Hin. by apply compile_known, truthy_at_inherited.
Qed.

Lemma compile_of_inherited_name_does_nothing_witness :
  run (compiles [(posix_host, "toString"); (lenient_host, "__proto__")]) one_live = one_live.
Proof.
  apply (compile_of_inherited_name_does_nothing
           [(posix_host, "toString"); (lenient_host, "__proto__")] one_live).
  repeat constructor.
Defined.

(** ** Projects that share no file *)

Section Disjoint.

Variable h : Host.
Hypothesis Hdisjoint : disjoint_projects h.

Lemma agrees_resolves h' filename m cfg :
  agrees h h' → resolves_to h' filename m cfg →
  findConfigFile h filename = Some m ∧ entryNames h' cfg = members h m.
Proof.
  intros (Hwin & Hfind & Hparse) (Hf & _ & -> & _).
  rewrite Hfind in Hf. split; [done|].
  unfold members, entryNames. by rewrite Hwin, Hparse.
Qed.

Lemma coherent_started h' filename m cfg c c' :
  agrees h h' → registry_coherent h c →
  resolves_to h' filename m cfg → truthy_at (tsConfigMap c) m = false →
  started_from c filename m (entryNames h' cfg) c' →
  registry_coherent h c'.
Proof.
  intros Hag Hco Hres [Hnone _]%truthy_at_false (_ & _ & _ & HfileMap & Hts & HgroupMap & _).
  destruct (agrees_resolves h' filename m cfg Hag Hres) as [Hfind Hnames].
  rewrite Hnames in HfileMap, HgroupMap, Hts.
  set (b' := started_build c m (members h m)) in *.
  intros g b0 Hg. rewrite HfileMap, lookup_insert_all in Hg.
  destruct (decide (g ∈ members h m)) as [Hin|Hnin].
  - injection Hg as <-. exists filename, m.
    split; [done|]. split; [by rewrite Hts, lookup_insert_eq|]. split; [done|].
    split; [by rewrite HgroupMap, lookup_insert_all_elem|].
    intros g' Hg'. by rewrite HfileMap, lookup_insert_all_elem.
  - destruct (Hco g b0 Hg) as (f0 & m0 & Hf0 & Hts0 & Hin0 & Hgroup0 & Hall0).
    assert (m0 ≠ m) as Hne by congruence.
    exists f0, m0. split; [done|].
    split; [by rewrite Hts, lookup_insert_ne|]. split; [done|].
    split; [by rewrite HgroupMap, lookup_insert_all_other|].
    intros g' Hg'. rewrite HfileMap, lookup_insert_all_other; [by apply Hall0|].
    intros Hg'm. exact (Hdisjoint f0 filename m0 m g' Hf0 Hfind Hne Hg' Hg'm).
Qed.

Lemma coherent_step c op :
  agrees h (host_of op) → registry_coherent h c → registry_coherent h (step c op).
Proof.
  intros Hag Hco. destruct op as [h' filename|h'|h']; simpl in *.
  - rewrite compile_state.
    destruct (startBuilding_cases h' filename c)
      as [?|e ? ?|m cfg ? ? ?|m cfg e ? ? ? ?|m cfg c' ? ? ? ? Hst]; try done.
    by eapply coherent_started.
  - by rewrite rebuild_run.
  - destruct (dispose_all_or_not h' (builds c)) as [Hall|Hex].
    + rewrite invalidate_fulfils by done. simpl. intros f b Hf.
      simpl in Hf. by rewrite lookup_empty in Hf.
    + destruct (invalidate_fails h' c Hex) as (e & done & b & -> & _). done.
Qed.

(** With disjoint projects, a project that starts has no file that is
    registered. *)
Lemma coherent_takeover_ok c op :
  agrees h (host_of op) → registry_coherent h c → takeover_ok c op.
Proof.
  intros Hag Hco. destruct op as [h' filename| |]; simpl in *; [|done..].
  intros m names (_ & Hlive & cfg & Hres & -> & _) g f b Hg Hgb _.
  exfalso.
  destruct (agrees_resolves h' filename m cfg Hag Hres) as [Hfind Hnames].
  rewrite Hnames in Hg.
  destruct (Hco g b Hgb) as (f0 & m0 & Hf0 & Hts0 & Hin0 & _).
  destruct (decide (m0 = m)) as [->|Hne].
  - by rewrite (truthy_at_own _ _ _ Hts0) in Hlive.
  - exact (Hdisjoint f0 filename m0 m g Hf0 Hfind Hne Hin0 Hg).
Qed.

Lemma coherent_whole_takeovers ops c :
  same_projects h ops → registry_coherent h c → whole_takeovers ops c.
Proof.
  revert c. induction ops as [|op ops IH]; intros c Hsame Hco; [done|].
  apply Forall_cons in Hsame as [Hag Hsame]. split.
  - by apply coherent_takeover_ok.
  - apply IH; [done|]. by apply coherent_step.
Qed.

End Disjoint.


Lemma posix_host_disjoint : disjoint_projects posix_host.
Proof.
  intros f1 f2 m1 m2 g Hf1 Hf2 Hne. unfold posix_host, findConfigFile in Hf1, Hf2.
  destruct (JsString.startsWith "/root/" f1); [|discriminate].
  destruct (JsString.startsWith "/root/" f2); [|discriminate].
  congruence.
Qed.


(** X18. The condition on the projects started is needed: in a state a
    session has reached, a [compile] that starts a project having a file
    [g] of a process but not another file [f] of that process breaks the
    invariant, since [g] is still in the group of [f] and now has the new
    process. *)
Theorem partial_takeover_breaks_invariant :
  ∀ (root dir : string) (ops : list Op) (h : Host) (filename m : string)
    (names : list string) (g f : string) (b : BuildIncremental),
    let c := run ops (new_Compiler root dir) in
    starts h filename c m names →
    g ∈ names → fileMap c !! g = Some b → fileMap c !! f = Some b → f ∉ names →
    ¬ registered_invariant (step c (Compile h filename)).
Proof.
  intros root dir ops h filename m names g f b c
         (Hfile0 & Hm & cfg & Hres & -> & Hok) Hg Hgb Hfb Hf Hinv.
  assert (handles_sound c) as (_ & Hlive & _ & Hfile & _)
      by apply handles_sound_run, handles_sound_new.
  destruct (startBuilding_started h filename c m cfg Hfile0 Hres Hm Hok)
    as (_ & _ & _ & _ & HfileMap & _ & HgroupMap & _).
  simpl in Hinv. rewrite compile_state in Hinv.
  destruct (Hinv f b) as (G & HG & _ & Hall).
  { by rewrite HfileMap, lookup_insert_all_other. }
  rewrite HgroupMap, lookup_insert_all_other in HG by done.
  destruct (Hfile f b Hfb) as (Hb & _ & HGf). rewrite HGf in HG. injection HG as <-.
  destruct (Hfile g b Hgb) as (_ & HgG & _).
  specialize (Hall g HgG). rewrite HfileMap, lookup_insert_all_elem in Hall by done.
  injection Hall as <-. destruct (Hlive _ Hb) as [Hlt _]. simpl in Hlt. lia.
Qed.

Lemma partial_takeover_breaks_invariant_witness :
  ¬ registered_invariant
      (run [Compile overlap_host "/p/x.ts"; Compile overlap_host "/q/z.ts"] session0).
Proof.
  apply (partial_takeover_breaks_invariant "/root" "/out"
           [Compile overlap_host "/p/x.ts"] overlap_host "/q/z.ts" "/q/tsconfig.json"
           ["/lib/y.ts"; "/q/z.ts"] "/lib/y.ts" "/p/x.ts"
           (started_build session0 "/p/tsconfig.json" ["/p/x.ts"; "/lib/y.ts"])).
  - split; [reflexivity|]. split; [reflexivity|].
    exists {| errors := []; fileNames := ["/lib/y.ts"; "/q/z.ts"] |}.
    split; [by repeat split|]. split; reflexivity.
  - left.
  - vm_compute. reflexivity.
  - vm_compute. reflexivity.
  - intros Hin. repeat (apply elem_of_cons in Hin as [[=]|Hin]). by apply elem_of_nil in Hin.
Defined.

(** ** Calls that overlap *)


Lemma startBuilding_call_resolves h filename m cfg c :
  truthy_at (fileMap c) filename = false → resolves_to h filename m cfg →
  startBuilding_call h filename c
  = (traced [FindConfigFile filename] c, AtResolution filename (Normal (m, cfg))).
Proof.
  intros Hfile Hres. unfold startBuilding_call.
  by rewrite Hfile, (getTSConfig_resolves h filename m cfg c Hres).
Qed.

Lemma startBuilding_resume_calls h filename m cfg c :
  truthy_at (tsConfigMap c) m = false →
  service_build h (buildOptions c (entryNames h cfg) m) = Fulfils →
  startBuilding_resume h (AtResolution filename (Normal (m, cfg))) c
  = (traced [ServiceBuild (buildOptions c (entryNames h cfg) m)] c,
     AtBuild filename m (entryNames h cfg)
       (new_build (buildOptions c (entryNames h cfg) m))).
Proof.
  intros Hm Hok. unfold startBuilding_resume, start_project_call. rewrite Hm.
  unfold invoke, emit, bind, get, modify, ret. simpl. by rewrite Hok.
Qed.

Lemma startBuilding_resume_registers h filename m names options c :
  startBuilding_resume h (AtBuild filename m names (new_build options)) c
  = (let b := {| build_id := allocated c; build_options := options |} in
     {| workspaceRoot := workspaceRoot c; workDir := workDir c;
        builds := builds c ++ [b];
        fileMap := insert_all names b (fileMap c);
        tsConfigMap := <[m := b]> (tsConfigMap c);
        groupMap := insert_all names names (groupMap c);
        allocated := S (allocated c);
        trace := trace c ++ [LogDebug "started build"
                               [("root", LStr m); ("promptedBy", LStr filename);
                                ("files", LNum (length names))]] |},
     Settled (Normal tt)).
Proof.
  unfold startBuilding_resume, start_project_resume. run_m.
  match goal with
  | |- context [fold_left (register_file ?b ?n) ?l ?c0] =>
      pose proof (register_files_fields b n l c0) as Hfields;
      destruct (fold_left (register_file b n) l c0)
  end.
  simpl in Hfields. destruct Hfields as (-> & -> & -> & -> & -> & -> & -> & ->).
  reflexivity.
Qed.

(** X19. Two calls of [compile] for files of one project that is not
    started, the second made before the first is awaited, start two
    processes: both calls pass the reads of lines 97 and 99 before either
    registers anything, [service.build] is called twice, both handles are
    live, and the manifest and every member file end with the handle
    created second. *)
Theorem overlapping_compiles_start_two_processes :
  ∀ (h : Host) (f1 f2 m : string) (cfg : ParsedCommandLine) (c : Compiler),
    truthy_at (fileMap c) f1 = false →
    truthy_at (fileMap c) f2 = false →
    resolves_to h f1 m cfg →
    resolves_to h f2 m cfg →
    truthy_at (tsConfigMap c) m = false →
    service_build h (buildOptions c (entryNames h cfg) m) = Fulfils →
    let names := entryNames h cfg in
    let b1 := {| build_id := allocated c; build_options := buildOptions c names m |} in
    let b2 := {| build_id := S (allocated c); build_options := buildOptions c names m |} in
    let c' := fst (startBuilding_overlapped h f1 f2 c) in
    snd (startBuilding_overlapped h f1 f2 c) = (Settled (Normal tt), Settled (Normal tt))
    ∧ builds c' = builds c ++ [b1; b2]
    ∧ live_for m c' = live_for m c + 2
    ∧ starts_for m (trace c') = starts_for m (trace c) + 2
    ∧ tsConfigMap c' !! m = Some b2
    ∧ (∀ g, g ∈ names → fileMap c' !! g = Some b2 ∧ groupMap c' !! g = Some names)
    ∧ b1 ≠ b2.
Proof.
  intros h f1 f2 m cfg c Hf1 Hf2 Hres1 Hres2 Hm Hok names b1 b2 c'.
  subst c'. unfold startBuilding_overlapped.
  rewrite (startBuilding_call_resolves h f1 m cfg c Hf1 Hres1).
  set (c1 := traced [FindConfigFile f1] c).
  rewrite (startBuilding_call_resolves h f2 m cfg c1 Hf2 Hres2).
  set (c2 := traced [FindConfigFile f2] c1).
  rewrite (startBuilding_resume_calls h f1 m cfg c2 Hm Hok).
  set (c3 := traced [ServiceBuild (buildOptions c2 (entryNames h cfg) m)] c2).
  rewrite (startBuilding_resume_calls h f2 m cfg c3 Hm Hok).
  rewrite !startBuilding_resume_registers.
  subst c1 c2 c3. simpl.
  change (buildOptions _ (entryNames h cfg) m) with (buildOptions c names m).
  fold b1 b2.
  split; [done|]. split; [by rewrite <- app_assoc|]. split; [|split; [|split; [|split]]].
  - unfold live_for. simpl. rewrite !filter_app, !length_app.
    rewrite !filter_cons_True by done. simpl. lia.
  - rewrite !starts_for_app. unfold starts_for. simpl.
    rewrite !filter_cons_True by done. simpl. lia.
  - apply lookup_insert_eq.
  - intros g Hg. by rewrite !lookup_insert_all_elem.
  - intros [= Hid]. lia.
Qed.

Lemma overlapping_compiles_start_two_processes_witness :
  live_for "/root/tsconfig.json"
    (fst (startBuilding_overlapped posix_host "/root/src/a.ts" "/root/src/b.tsx" session0))
  = 2.
Proof.
  destruct (overlapping_compiles_start_two_processes posix_host
              "/root/src/a.ts" "/root/src/b.tsx" "/root/tsconfig.json"
              {| errors := []; fileNames := ["/root/src/a.ts"; "/root/src/b.tsx"] |}
              session0)
    as (_ & _ & Hlive & _).
  - reflexivity.
  - reflexivity.
  - by repeat split.
  - by repeat split.
  - reflexivity.
  - reflexivity.
  - exact Hlive.
Defined.
